(** * honeytail, package keyval: parsing of logs made of key=val pairs

    A shallow embedding of [parsers/keyval/keyval.go] and the properties of
    its per-line pipeline and of its pool of parser goroutines.

    Go maps are finite maps ([gmap string _]); Go's [int] is the 64-bit
    integer of the usual targets, kept as a [Z] inside its range.  What the
    package imports and does not define (the logfmt scanner, the regular
    expression engine, the float parser, the prefix matcher, the timestamp
    resolver) is gathered in the classes [Types] and [Imports]. *)

From Stdlib Require Import ZArith QArith String Ascii List Lia Permutation.
From stdpp Require Import gmap strings list fin_maps.

Local Open Scope string_scope.
Local Open Scope list_scope.
Local Open Scope Z_scope.

(** ** strconv

    The two parsers of Go's standard library that the closure of
    [ParseLine] calls before [ParseFloat], after the library's
    documentation. *)

Module strconv.

(** [strconv.ParseBool]: the error is only ever compared with nil, so the
    result is an option. *)
Definition ParseBool (str : string) : option bool :=
  if decide (str = "1") then Some true
  else if decide (str = "t") then Some true
  else if decide (str = "T") then Some true
  else if decide (str = "TRUE") then Some true
  else if decide (str = "true") then Some true
  else if decide (str = "True") then Some true
  else if decide (str = "0") then Some false
  else if decide (str = "f") then Some false
  else if decide (str = "F") then Some false
  else if decide (str = "FALSE") then Some false
  else if decide (str = "false") then Some false
  else if decide (str = "False") then Some false
  else None.

(** Width of Go's [int]. *)
Definition intSize : Z := 64.
Definition maxInt : Z := 2 ^ (intSize - 1) - 1.
Definition minInt : Z := - 2 ^ (intSize - 1).

Definition is_digit (ch : ascii) : bool :=
  ((48 <=? nat_of_ascii ch) && (nat_of_ascii ch <=? 57))%nat.

(** The digit loop [n = n*10 + int(ch - '0')], failing on a byte that is
    no decimal digit. *)
Fixpoint digits (n : Z) (s : string) : option Z :=
  match s with
  | EmptyString => Some n
  | String ch r =>
      if is_digit ch
      then digits (n * 10 + Z.of_nat (nat_of_ascii ch - 48)) r
      else None
  end.

Definition is_sign (ch : ascii) : bool :=
  (nat_of_ascii ch =? 45)%nat || (nat_of_ascii ch =? 43)%nat.

(** [strconv.Atoi]: an optional sign, then one or more decimal digits,
    and a value that fits [int]; anything else is an error. *)
Definition Atoi (s : string) : option Z :=
  match s with
  | EmptyString => None
  | String s0 r =>
      let body := if is_sign s0 then r else s in
      match body with
      | EmptyString => None
      | _ =>
          match digits 0 body with
          | None => None
          | Some n =>
              let i := if (nat_of_ascii s0 =? 45)%nat then - n else n in
              if (minInt <=? i) && (i <=? maxInt) then Some i else None
          end
      end
  end.

End strconv.

(** ** strings

    [strings.TrimPrefix] of Go's standard library. *)

Module strings.

Fixpoint HasPrefix (s prefix : string) : bool :=
  match prefix, s with
  | EmptyString, _ => true
  | String p ps, String c cs => if decide (p = c) then HasPrefix cs ps else false
  | String _ _, EmptyString => false
  end.

Fixpoint drop (n : nat) (s : string) : string :=
  match n, s with
  | O, _ => s
  | S n', String _ r => drop n' r
  | S _, EmptyString => EmptyString
  end.

(** [strings.TrimPrefix]: [s] without the leading [prefix], or [s] itself
    when it does not start with [prefix]. *)
Definition TrimPrefix (s prefix : string) : string :=
  if HasPrefix s prefix then drop (String.length prefix) s else s.

End strings.

(** ** The package *)

(** [Options]. *)
Record Options := {
  TimeFieldName : string;
  TimeFieldFormat : string;
  FilterRegex : string;
  InvertFilter : bool;
  NumParsers : Z;
}.

(** A field value: what [interface{}] holds in a parsed line. *)
Inductive Value (float64 : Type) : Type :=
| VBool (b : bool)
| VInt (i : Z)
| VFloat (x : float64)
| VString (s : string).

Arguments VBool {float64} b.
Arguments VInt {float64} i.
Arguments VFloat {float64} x.
Arguments VString {float64} s.

(** The types the package takes from elsewhere: Go's [float64], [time.Time]
    and [error], and the two kinds of compiled patterns, [regexp.Regexp] and
    [parsers.ExtRegexp]. *)
Class Types := {
  float64 : Type;
  Time : Type;
  error : Type;
  Regexp : Type;
  ExtRegexp : Type;
}.

(** The functions the package imports. *)
Class Imports `{Types} := {
  (** [strconv.ParseFloat(s, 64)]. *)
  ParseFloat : string -> option float64;
  (** The scanner of [github.com/kr/logfmt]: the key/val pairs it hands to
      its handler, in the order of the line, and the error it ends with. *)
  logfmt_pairs : string -> list (string * string);
  logfmt_error : string -> option error;
  (** [regexp.Compile] and [Regexp.MatchString]. *)
  Compile : string -> Regexp + error;
  MatchString : Regexp -> string -> bool;
  (** [ExtRegexp.FindStringSubmatchMap]: the matched prefix and the named
      groups. *)
  FindStringSubmatchMap : ExtRegexp -> string -> string * gmap string string;
  (** [httime.GetTimestamp]: it is handed the map itself, not a copy, so it
      returns the timestamp together with the map as it leaves it. *)
  GetTimestamp :
    gmap string (Value float64) -> string -> string -> Time * gmap string (Value float64);
}.

Section keyval.

Context `{Imports}.

Local Abbreviation Fields := (gmap string (Value float64)).

(** [event.Event]. *)
Record Event := { Timestamp : Time; Data : Fields }.

(** [logfmt.Unmarshal]: every pair goes to the handler, which threads its
    state [S]; the first error of the handler stops the scan, otherwise
    the scanner's own error is returned. *)
Fixpoint HandleAll {S : Type} (h : string -> string -> S -> S * option error)
    (kvs : list (string * string)) (st : S) : S * option error :=
  match kvs with
  | [] => (st, None)
  | (key, val) :: rest =>
      match h key val st with
      | (st', Some err) => (st', Some err)
      | (st', None) => HandleAll h rest st'
      end
  end.

Definition Unmarshal {S : Type} (b : string)
    (h : string -> string -> S -> S * option error) (st : S) : S * option error :=
  match HandleAll h (logfmt_pairs b) st with
  | (st', Some err) => (st', Some err)
  | (st', None) => (st', logfmt_error b)
  end.

(** The closure [f] of [ParseLine], with the captured map [parsed] as its
    state. *)
Definition f (key val : string) (parsed : Fields) : Fields * option error :=
  let keyStr := key in
  let valStr := val in
  match strconv.ParseBool valStr with
  | Some b => (<[keyStr := VBool b]> parsed, None)
  | None =>
      match strconv.Atoi valStr with
      | Some i => (<[keyStr := VInt i]> parsed, None)
      | None =>
          match ParseFloat valStr with
          | Some x => (<[keyStr := VFloat x]> parsed, None)
          | None => (<[keyStr := VString valStr]> parsed, None)
          end
      end
  end.

(** The inference order in the words of the specification: the tag of a
    stored value is the first of boolean, integer, float and string whose
    parse of the raw text succeeds, the string being the raw text itself. *)
Inductive inferred (val : string) : Value float64 -> Prop :=
| inferred_bool b :
    strconv.ParseBool val = Some b -> inferred val (VBool b)
| inferred_int i :
    strconv.ParseBool val = None -> strconv.Atoi val = Some i ->
    inferred val (VInt i)
| inferred_float x :
    strconv.ParseBool val = None -> strconv.Atoi val = None ->
    ParseFloat val = Some x -> inferred val (VFloat x)
| inferred_string :
    strconv.ParseBool val = None -> strconv.Atoi val = None ->
    ParseFloat val = None -> inferred val (VString val).

(** The interface [parsers.LineParser]. *)
Record LineParser := {
  ParseLine : string -> Fields * option error;
}.

(** [KeyValLineParser.ParseLine]. *)
Definition KeyValLineParser : LineParser :=
  {| ParseLine line := Unmarshal line f ∅ |}.

(** [NoopLineParser.ParseLine]; the line it stores in [incomingLine] is
    read by nothing in the package. *)
Definition NoopLineParser (outgoingMap : Fields) : LineParser :=
  {| ParseLine line := (outgoingMap, None) |}.

(** [Parser]; [lineParser] and [filterRegex] are nil until [Init] sets
    them. *)
Record Parser := {
  conf : Options;
  lineParser : option LineParser;
  filterRegex : option Regexp;
  warnedAboutTime : bool;
}.

Definition set_conf (options : Options) (p : Parser) : Parser :=
  {| conf := options; lineParser := lineParser p;
     filterRegex := filterRegex p; warnedAboutTime := warnedAboutTime p |}.

Definition set_filterRegex (re : option Regexp) (p : Parser) : Parser :=
  {| conf := conf p; lineParser := lineParser p;
     filterRegex := re; warnedAboutTime := warnedAboutTime p |}.

Definition set_lineParser (lp : option LineParser) (p : Parser) : Parser :=
  {| conf := conf p; lineParser := lp;
     filterRegex := filterRegex p; warnedAboutTime := warnedAboutTime p |}.

(** [Parser.Init]: the parser as the call leaves it, and the returned
    error. On a pattern that does not compile, [filterRegex] receives the
    nil that [regexp.Compile] returns with its error, and the assignment
    of [lineParser] is not reached. *)
Definition Init (p : Parser) (options : Options) : Parser * option error :=
  let p := set_conf options p in
  if decide (FilterRegex (conf p) <> EmptyString) then
    match Compile (FilterRegex (conf p)) with
    | inr err => (set_filterRegex None p, Some err)
    | inl re =>
        (set_lineParser (Some KeyValLineParser) (set_filterRegex (Some re) p), None)
    end
  else (set_lineParser (Some KeyValLineParser) p, None).

(** [allEmpty], as the loop over the entries of the map taken in the order
    [entries]: the first value that is no string, or a string that is not
    empty, returns false. *)
Fixpoint allEmpty_loop (entries : list (string * Value float64)) : bool :=
  match entries with
  | [] => true
  | (_, v) :: rest =>
      match v with
      | VString vStr =>
          if decide (vStr <> EmptyString) then false else allEmpty_loop rest
      | _ => false
      end
  end.

Definition allEmpty (pl : Fields) : bool :=
  allEmpty_loop (map_to_list pl).

(** The merge loop [for k, v := range prefixFields { parsedLine[k] = v }]. *)
Definition mergeFields (prefixFields : gmap string string) (parsedLine : Fields)
    : Fields :=
  map_fold (fun k v acc => <[k := VString v]> acc) parsedLine prefixFields.

(** What the worker loop does to the outside: the calls to the
    collaborators, in program order. *)
Inductive Call :=
| CallMatchString (line : string)
| SkipWithFields (line msg : string) (matched : bool)
| CallFindStringSubmatchMap (line : string)
| CallParseLine (line : string)
| ParseError (line : string) (err : error)
| Skip (line msg : string)
| CallGetTimestamp (m : Fields) (timeFieldName timeFieldFormat : string)
| Debug (line : string) (values : Fields) (timestamp : Time).

(** The calls of package [reporting]. *)
Definition is_report (c : Call) : bool :=
  match c with
  | SkipWithFields _ _ _ | ParseError _ _ | Skip _ _ => true
  | _ => false
  end.

Definition reports (tr : list Call) : list Call := List.filter is_report tr.

(** The calls past the filter: prefix extraction and tokenization. *)
Definition is_extraction (c : Call) : bool :=
  match c with
  | CallFindStringSubmatchMap _ | CallParseLine _ => true
  | _ => false
  end.

(** How one pass of the loop ends: [continue], the send of an event on
    [send], or the nil dereference of a line parser that was never set. *)
Inductive Outcome :=
| Continue (tr : list Call)
| Send (tr : list Call) (e : Event)
| Panic (tr : list Call).

Definition trace (o : Outcome) : list Call :=
  match o with Continue tr | Send tr _ | Panic tr => tr end.

Definition emitted (o : Outcome) : option Event :=
  match o with Send _ e => Some e | _ => None end.

(** Lines 95-100: the headers of the line. A nil [prefixRegex] leaves the
    line as it is and [prefixFields] nil. *)
Definition takeHeaders (prefixRegex : option ExtRegexp) (line : string)
    : string * gmap string string :=
  match prefixRegex with
  | Some re =>
      let '(prefix, prefixFields) := FindStringSubmatchMap re line in
      (strings.TrimPrefix line prefix, prefixFields)
  | None => (line, ∅)
  end.

Definition headerCalls (prefixRegex : option ExtRegexp) (line : string) : list Call :=
  match prefixRegex with
  | Some _ => [CallFindStringSubmatchMap line]
  | None => []
  end.

(** Lines 94-138: the loop body below the filter; [tr] holds the calls made
    so far. *)
Definition parseAndSend (p : Parser) (prefixRegex : option ExtRegexp)
    (line : string) (tr : list Call) : Outcome :=
  let tr := tr ++ headerCalls prefixRegex line in
  let '(line, prefixFields) := takeHeaders prefixRegex line in
  match lineParser p with
  | None => Panic tr
  | Some lp =>
      let tr := tr ++ [CallParseLine line] in
      match ParseLine lp line with
      | (_, Some err) => Continue (tr ++ [ParseError line err])
      | (parsedLine, None) =>
          if decide (size parsedLine = 0%nat) then
            Continue (tr ++ [Skip line "no key/val pairs found"])
          else if allEmpty parsedLine then
            Continue (tr ++ [Skip line "all values are the empty string"])
          else
            let merged := mergeFields prefixFields parsedLine in
            let '(timestamp, data) :=
              GetTimestamp merged (TimeFieldName (conf p)) (TimeFieldFormat (conf p)) in
            Send (tr ++ [CallGetTimestamp merged (TimeFieldName (conf p))
                                          (TimeFieldFormat (conf p));
                         Debug line data timestamp])
                 {| Timestamp := timestamp; Data := data |}
      end
  end.

(** Lines 83-138: the body of [for line := range lines]. *)
Definition processLine (p : Parser) (prefixRegex : option ExtRegexp)
    (line : string) : Outcome :=
  match filterRegex p with
  | Some re =>
      let matched := MatchString re line in
      if Bool.eqb matched (InvertFilter (conf p)) then
        Continue [CallMatchString line;
                  SkipWithFields line "due to provided filter_regex" matched]
      else parseAndSend p prefixRegex line [CallMatchString line]
  | None => parseAndSend p prefixRegex line []
  end.

(** *** The pool of [ProcessLines] *)

(** A goroutine of the pool: at the head of [for line := range lines],
    blocked in [send <- e], past [wg.Done()], or dead in a panic. *)
Inductive Worker :=
| Receiving
| Sending (e : Event)
| Exited
| Panicked.

(** The pool while [ProcessLines] runs. [lines] is what the producer has
    still to hand over on the channel before it closes it; [sent] is what
    the receiver of [send] has taken so far; [reported] gathers the calls of
    the passes in the order the passes were made. *)
Record Pool := {
  lines : list string;
  workers : list Worker;
  reported : list Call;
  sent : list Event;
}.

(** Lines 78-82: one goroutine per [i < NumParsers], none when the count is
    zero or negative. *)
Definition spawn (p : Parser) (input : list string) : Pool :=
  {| lines := input;
     workers := replicate (Z.to_nat (NumParsers (conf p))) Receiving;
     reported := [];
     sent := [] |}.

(** One move of goroutine [i]: a receive from [lines] followed by the pass
    over the line (or the end of the range loop on the closed and drained
    channel), or the completion of its pending send. [None] when [i] names
    no goroutine that can move. *)
Definition step (p : Parser) (prefixRegex : option ExtRegexp) (i : nat) (s : Pool)
    : option Pool :=
  match workers s !! i with
  | Some Receiving =>
      match lines s with
      | [] =>
          Some {| lines := []; workers := <[i := Exited]> (workers s);
                  reported := reported s; sent := sent s |}
      | line :: rest =>
          match processLine p prefixRegex line with
          | Continue tr =>
              Some {| lines := rest; workers := workers s;
                      reported := reported s ++ tr; sent := sent s |}
          | Send tr e =>
              Some {| lines := rest; workers := <[i := Sending e]> (workers s);
                      reported := reported s ++ tr; sent := sent s |}
          | Panic tr =>
              Some {| lines := rest; workers := <[i := Panicked]> (workers s);
                      reported := reported s ++ tr; sent := sent s |}
          end
      end
  | Some (Sending e) =>
      Some {| lines := lines s; workers := <[i := Receiving]> (workers s);
              reported := reported s; sent := sent s ++ [e] |}
  | _ => None
  end.

(** The moves of a schedule, one after the other. *)
Fixpoint run (p : Parser) (prefixRegex : option ExtRegexp) (sched : list nat)
    (s : Pool) : option Pool :=
  match sched with
  | [] => Some s
  | i :: sched' =>
      match step p prefixRegex i s with
      | Some s' => run p prefixRegex sched' s'
      | None => None
      end
  end.

(** Modelled from the spec: the caller of [Init] and [ProcessLines], the
    main loop of the pipeline, which is no part of this package. "A
    malformed filter pattern fails initialization immediately and prevents
    the pool from starting": the pool is spawned only after an [Init] that
    returned no error. *)
Definition startPipeline (p : Parser) (options : Options) (input : list string)
    : error + Pool :=
  match Init p options with
  | (_, Some err) => inl err
  | (p', None) => inr (spawn p' input)
  end.

Definition is_Exited (w : Worker) : bool :=
  match w with Exited => true | _ => false end.

(** [wg.Wait()] returns, and with it [ProcessLines], once every goroutine
    is past its [wg.Done()]. *)
Definition returned (s : Pool) : bool := forallb is_Exited (workers s).

(** The event a goroutine holds while it is blocked in its send. *)
Definition inflight (w : Worker) : option Event :=
  match w with Sending e => Some e | _ => None end.

(** The events that the passes over the lines of [input] send, in the order
    of the lines. *)
Definition events (p : Parser) (prefixRegex : option ExtRegexp) (input : list string)
    : list Event :=
  omap (fun line => emitted (processLine p prefixRegex line)) input.

(** A bound on the moves a pool has left: two for a line still to be
    received, one for a pending send, one for the exit of a goroutine. *)
Definition weight (w : Worker) : nat :=
  match w with Receiving => 1 | Sending _ => 2 | Exited | Panicked => 0 end.

Definition moves_left (s : Pool) : nat :=
  2 * length (lines s) + sum_list_with weight (workers s).

(** What every pool reached from [spawn p input] satisfies: no event is
    lost or made twice between the lines not yet received, the pending
    sends and the sink; the lines left are a tail of the input; a goroutine
    leaves its loop only on the drained channel. *)
Record pool_inv (p : Parser) (prefixRegex : option ExtRegexp) (input : list string)
    (s : Pool) : Prop := {
  inv_events :
    sent s ++ omap inflight (workers s) ++ events p prefixRegex (lines s)
    ≡ₚ events p prefixRegex input;
  inv_tail : exists received, input = received ++ lines s;
  inv_exited : Exited ∈ workers s -> lines s = [];
  inv_count : length (workers s) = Z.to_nat (NumParsers (conf p));
}.

(** The calls of one kind in a trace. *)
Definition is_CallMatchString (c : Call) : bool :=
  match c with CallMatchString _ => true | _ => false end.

Definition is_CallParseLine (c : Call) : bool :=
  match c with CallParseLine _ => true | _ => false end.

Definition is_CallGetTimestamp (c : Call) : bool :=
  match c with CallGetTimestamp _ _ _ => true | _ => false end.

(** The lines of a pool that are neither received yet, nor in a pending
    send, nor in the sink, nor reported: none, as long as no pass ends in a
    panic. *)
Definition accounted (s : Pool) : nat :=
  length (sent s) + length (omap inflight (workers s))
  + length (reports (reported s)) + length (lines s).

End keyval.

(** ** A small instance of the imports

    Enough of each collaborator to run the package on concrete lines:
    decimal floats, a scanner for space-separated [key=val] tokens without
    quoting, patterns that are literal prefixes, and a resolver that removes
    the time field it was asked for. *)

Module sample.

Fixpoint split_at (sep : ascii) (s : string) : option (string * string) :=
  match s with
  | EmptyString => None
  | String c r =>
      if decide (c = sep) then Some (EmptyString, r)
      else match split_at sep r with
           | Some (a, b) => Some (String c a, b)
           | None => None
           end
  end.

Definition natural (s : string) : option Z :=
  match s with
  | EmptyString => None
  | _ => strconv.digits 0 s
  end.

(** [digits] or [digits.digits], as a rational. *)
Definition ParseFloat (s : string) : option Q :=
  match split_at "." s with
  | Some (a, b) =>
      match natural a, natural b with
      | Some n, Some m =>
          let scale := 10 ^ Z.of_nat (String.length b) in
          Some (Qmake (n * scale + m) (Z.to_pos scale))
      | _, _ => None
      end
  | None =>
      match natural s with
      | Some n => Some (Qmake n 1)
      | None => None
      end
  end.

Fixpoint words (cur : string) (s : string) : list string :=
  match s with
  | EmptyString => match cur with EmptyString => [] | _ => [cur] end
  | String c r =>
      if decide (c = " "%char)
      then match cur with EmptyString => words EmptyString r
                        | _ => cur :: words EmptyString r end
      else words (cur +:+ String c EmptyString) r
  end.

Definition pair_of (w : string) : string * string :=
  match split_at "=" w with
  | Some (k, v) => (k, v)
  | None => (w, EmptyString)
  end.

Definition logfmt_pairs (line : string) : list (string * string) :=
  List.map pair_of (words EmptyString line).

(** The scanner fails on a line that holds a backslash. *)
Definition logfmt_error (line : string) : option string :=
  match split_at "\" line with
  | Some _ => Some "logfmt: unterminated string"
  | None => None
  end.

(** A pattern is a literal; one that opens a group it never closes does not
    compile. *)
Definition Compile (expr : string) : string + string :=
  match split_at "(" expr with
  | Some (_, rest) =>
      match split_at ")" rest with
      | Some _ => inl expr
      | None => inr "error parsing regexp: missing closing )"
      end
  | None => inl expr
  end.

Definition MatchString (re line : string) : bool := strings.HasPrefix line re.

Definition FindStringSubmatchMap (re line : string) : string * gmap string string :=
  if strings.HasPrefix line re then (re, {[ "header" := re ]}) else (EmptyString, ∅).

Definition GetTimestamp (m : gmap string (Value Q)) (name format : string)
    : Z * gmap string (Value Q) :=
  (0, delete name m).

Definition types : Types := Build_Types Q Z string string string.

Definition imports : @Imports types :=
  Build_Imports types
    ParseFloat logfmt_pairs logfmt_error Compile MatchString
    FindStringSubmatchMap GetTimestamp.

Definition options (filter : string) (invert : bool) (n : Z) : Options :=
  {| TimeFieldName := EmptyString; TimeFieldFormat := EmptyString;
     FilterRegex := filter; InvertFilter := invert; NumParsers := n |}.

(** The zero [Parser], and the parser that [Init] makes of it. *)
Definition zero : @Parser types :=
  {| conf := options EmptyString false 0; lineParser := None;
     filterRegex := None; warnedAboutTime := false |}.

Definition parser (filter : string) (invert : bool) (n : Z) : @Parser types :=
  fst (Init (H0 := imports) zero (options filter invert n)).

End sample.


(** ** Properties *)

Example ParseBool_true : strconv.ParseBool "true" = Some true.
Proof. reflexivity. Qed.

Example Atoi_42 : strconv.Atoi "42" = Some 42.
Proof. reflexivity. Qed.

Example Atoi_signed : strconv.Atoi "-17" = Some (-17) /\ strconv.Atoi "+17" = Some 17.
Proof. split; reflexivity. Qed.

Example Atoi_42x : strconv.Atoi "42x" = None.
Proof. reflexivity. Qed.

Example Atoi_limits :
  strconv.Atoi "9223372036854775808" = None
  /\ strconv.Atoi "9223372036854775807" = Some 9223372036854775807
  /\ strconv.Atoi "-9223372036854775808" = Some (-9223372036854775808)
  /\ strconv.Atoi "-9223372036854775809" = None.
Proof. repeat split; vm_compute; reflexivity. Qed.

Example TrimPrefix_strips : strings.TrimPrefix "abc k=v" "abc " = "k=v".
Proof. reflexivity. Qed.

Example TrimPrefix_keeps : strings.TrimPrefix "abc k=v" "x" = "abc k=v".
Proof. reflexivity. Qed.

Section properties.

Context `{Imports}.

Local Abbreviation Fields := (gmap string (Value float64)).

Implicit Types (pl parsed : Fields) (prefixFields : gmap string string).
Implicit Types (p : Parser) (prefixRegex : option ExtRegexp) (line : string).

(** *** allEmpty *)

Lemma allEmpty_loop_Forall (entries : list (string * Value float64)) :
  allEmpty_loop entries = true <->
  Forall (fun kv => kv.2 = VString EmptyString) entries.
Proof.
  induction entries as [|[k v] rest IH]; simpl.
  - split; [constructor | reflexivity].
  - rewrite Forall_cons. simpl. destruct v as [b|i|x|s]; try (split; [discriminate | intros [? _]; discriminate]).
    destruct (decide (s <> EmptyString)) as [Hne|Heq].
    + split; [discriminate | intros [[= ->] _]; contradiction].
    + apply dec_stable in Heq. subst s. rewrite IH. tauto.
Qed.

(** The order in which the range loop visits the map does not matter. *)
Lemma allEmpty_loop_Permutation (l1 l2 : list (string * Value float64)) :
  l1 ≡ₚ l2 -> allEmpty_loop l1 = allEmpty_loop l2.
Proof.
  intros Hp.
  destruct (allEmpty_loop l1) eqn:E1, (allEmpty_loop l2) eqn:E2; try reflexivity.
  - apply allEmpty_loop_Forall in E1. rewrite Hp in E1.
    apply allEmpty_loop_Forall in E1. congruence.
  - apply allEmpty_loop_Forall in E2. rewrite <- Hp in E2.
    apply allEmpty_loop_Forall in E2. congruence.
Qed.

Lemma allEmpty_true pl :
  allEmpty pl = true <-> forall k v, pl !! k = Some v -> v = VString EmptyString.
Proof.
  unfold allEmpty. rewrite allEmpty_loop_Forall, Forall_forall. split.
  - intros Hall k v Hk. apply elem_of_map_to_list in Hk. exact (Hall (k, v) Hk).
  - intros Hall [k v] Hin. apply elem_of_map_to_list in Hin. exact (Hall k v Hin).
Qed.

Lemma allEmpty_empty : allEmpty (∅ : Fields) = true.
Proof. apply allEmpty_true. intros k v. rewrite lookup_empty. discriminate. Qed.

(** C6: [allEmpty] answers true exactly when every value of the map is the
    empty string; a map holding a value that is no string (a boolean, an
    integer, a float), or a string that is not empty, gets false, and so is
    not rejected by the third rule. *)
Theorem allEmpty_iff_all_values_empty_strings pl :
  (allEmpty pl = true <-> forall k v, pl !! k = Some v -> v = VString EmptyString)
  /\ ((exists k b, pl !! k = Some (VBool b)) -> allEmpty pl = false)
  /\ ((exists k i, pl !! k = Some (VInt i)) -> allEmpty pl = false)
  /\ ((exists k x, pl !! k = Some (VFloat x)) -> allEmpty pl = false)
  /\ ((exists k s, pl !! k = Some (VString s) /\ s <> EmptyString) -> allEmpty pl = false).
Proof.
  split; [apply allEmpty_true|].
  assert (Hf : forall k v, pl !! k = Some v -> v <> VString EmptyString -> allEmpty pl = false).
  { intros k v Hk Hv. destruct (allEmpty pl) eqn:E; [|reflexivity].
    rewrite allEmpty_true in E. specialize (E k v Hk). contradiction. }
  repeat split.
  - intros (k & b & Hk). apply (Hf _ _ Hk). discriminate.
  - intros (k & i & Hk). apply (Hf _ _ Hk). discriminate.
  - intros (k & x & Hk). apply (Hf _ _ Hk). discriminate.
  - intros (k & s & Hk & Hs). apply (Hf _ _ Hk). intros [= ->]. contradiction.
Qed.

(** *** The merge of the header fields *)

Lemma mergeFields_lookup prefixFields parsed k :
  mergeFields prefixFields parsed !! k =
  match prefixFields !! k with
  | Some v => Some (VString v)
  | None => parsed !! k
  end.
Proof.
  unfold mergeFields.
  induction prefixFields as [|i x m Hi Hfold IH] using map_first_key_ind.
  - rewrite map_fold_empty, lookup_empty. reflexivity.
  - rewrite map_fold_insert_first_key by assumption.
    destruct (decide (i = k)) as [->|Hne].
    + rewrite !lookup_insert_eq. reflexivity.
    + rewrite !lookup_insert_ne by assumption. apply IH.
Qed.

(** *** Type inference *)

Lemma f_inferred key val parsed :
  exists v, f key val parsed = (<[key := v]> parsed, None) /\ inferred val v.
Proof.
  unfold f.
  destruct (strconv.ParseBool val) as [b|] eqn:Hb.
  { exists (VBool b). split; [reflexivity | by constructor]. }
  destruct (strconv.Atoi val) as [i|] eqn:Hi.
  { exists (VInt i). split; [reflexivity | by constructor]. }
  destruct (ParseFloat val) as [x|] eqn:Hx.
  { exists (VFloat x). split; [reflexivity | by constructor]. }
  exists (VString val). split; [reflexivity | by constructor].
Qed.

Lemma inferred_unique val v1 v2 : inferred val v1 -> inferred val v2 -> v1 = v2.
Proof. intros H1 H2. destruct H1; destruct H2; congruence. Qed.

Lemma inferred_total val : exists v, inferred val v.
Proof. destruct (f_inferred EmptyString val ∅) as (v & _ & Hv). eauto. Qed.

(** The scan under [f]: the handler never returns an error, and afterwards
    a key either occurs in no pair and is bound as before, or holds the
    inferred value of the last pair that names it. *)
Lemma HandleAll_f kvs parsed :
  exists parsed',
    HandleAll f kvs parsed = (parsed', None)
    /\ forall key,
        ((key ∉ kvs.*1) /\ parsed' !! key = parsed !! key)
        \/ exists l1 val l2 v,
             kvs = l1 ++ (key, val) :: l2 /\ (key ∉ l2.*1)
             /\ inferred val v /\ parsed' !! key = Some v.
Proof.
  revert parsed. induction kvs as [|[k0 v0] rest IH]; intros parsed; simpl.
  - exists parsed. split; [reflexivity|]. intros key. left.
    split; [apply not_elem_of_nil | reflexivity].
  - destruct (f_inferred k0 v0 parsed) as (v & -> & Hv).
    destruct (IH (<[k0 := v]> parsed)) as (parsed' & -> & Hkeys).
    exists parsed'. split; [reflexivity|]. intros key.
    destruct (Hkeys key) as [[Hnot Hsame]|(l1 & val & l2 & w & -> & Hl2 & Hw & Hlook)].
    + destruct (decide (key = k0)) as [->|Hne].
      * right. exists [], v0, rest, v. rewrite Hsame, lookup_insert_eq. auto.
      * left. rewrite not_elem_of_cons. rewrite Hsame, lookup_insert_ne by congruence. auto.
    + right. exists ((k0, v0) :: l1), val, l2, w. auto.
Qed.

Lemma Atoi_range val i :
  strconv.Atoi val = Some i -> - 2 ^ 63 <= i <= 2 ^ 63 - 1.
Proof.
  unfold strconv.Atoi. destruct val as [|s0 r]; [discriminate|].
  destruct (if strconv.is_sign s0 then r else String s0 r); [discriminate|].
  destruct (strconv.digits 0 _) as [n|]; [|discriminate].
  destruct (_ && _) eqn:Hr; [|discriminate]. intros [= <-].
  apply andb_prop in Hr as [Hlo Hhi].
  apply Z.leb_le in Hlo, Hhi.
  change strconv.minInt with (- 2 ^ 63) in Hlo.
  change strconv.maxInt with (2 ^ 63 - 1) in Hhi. lia.
Qed.

(** C1: the handler stores, under the key of the token, the value whose tag
    is the first of boolean, signed decimal integer of 64 bits, float and
    string that parses the raw text, the string being the text unchanged; it
    never fails, each text has exactly one such value, and after [ParseLine]
    every key of a token is bound to the value inferred from the last token
    of that key, and nothing else is bound. *)
Theorem type_inference_order :
  (forall key val parsed,
     exists v, f key val parsed = (<[key := v]> parsed, None) /\ inferred val v)
  /\ (forall val, exists v, inferred val v /\ forall v', inferred val v' -> v' = v)
  /\ (forall val i, inferred val (VInt i) -> - 2 ^ 63 <= i <= 2 ^ 63 - 1)
  /\ (forall line,
        (ParseLine KeyValLineParser line).2 = logfmt_error line
        /\ (forall key val, (key, val) ∈ logfmt_pairs line ->
              is_Some ((ParseLine KeyValLineParser line).1 !! key))
        /\ (forall key v, (ParseLine KeyValLineParser line).1 !! key = Some v ->
              exists l1 val l2,
                logfmt_pairs line = l1 ++ (key, val) :: l2 /\ (key ∉ l2.*1)
                /\ inferred val v)).
Proof.
  split; [apply f_inferred|]. split.
  { intros val. destruct (inferred_total val) as [v Hv]. exists v.
    split; [assumption|]. intros v' Hv'. eauto using inferred_unique. }
  split.
  { intros val i Hi. inversion Hi; subst. eauto using Atoi_range. }
  intros line. simpl. unfold Unmarshal.
  destruct (HandleAll_f (logfmt_pairs line) ∅) as (parsed' & -> & Hkeys).
  simpl. split; [reflexivity|]. split.
  - intros key val Hin.
    destruct (Hkeys key) as [[Hnot _]|(l1 & val' & l2 & v & _ & _ & _ & ->)]; [|eauto].
    exfalso. apply Hnot. apply list_elem_of_fmap. exists (key, val). auto.
  - intros key v Hlook.
    destruct (Hkeys key) as [[_ Hsame]|(l1 & val' & l2 & w & Heq & Hl2 & Hw & Hw')].
    + rewrite Hsame, lookup_empty in Hlook. discriminate.
    + exists l1, val', l2. rewrite Hlook in Hw'. injection Hw' as ->. auto.
Qed.

(** C10: a token whose value is 1 or 0 is stored as the boolean true or
    false, for the boolean parse comes first and takes these two texts, with
    t, f, T, F, TRUE, FALSE, True, False, true and false; the integer parse,
    which would have given 1 and 0, is not consulted. *)
Theorem one_and_zero_are_booleans :
  (forall key parsed,
     f key "1" parsed = (<[key := VBool true]> parsed, None)
     /\ f key "0" parsed = (<[key := VBool false]> parsed, None))
  /\ (forall v, inferred "1" v -> v = VBool true)
  /\ (forall v, inferred "0" v -> v = VBool false)
  /\ strconv.Atoi "1" = Some 1 /\ strconv.Atoi "0" = Some 0
  /\ Forall (fun val => strconv.ParseBool val = Some true)
        ["1"; "t"; "T"; "TRUE"; "true"; "True"]
  /\ Forall (fun val => strconv.ParseBool val = Some false)
        ["0"; "f"; "F"; "FALSE"; "false"; "False"].
Proof.
  split; [intros; split; reflexivity|].
  split; [intros v Hv; inversion Hv as [b Hb|i Hb|x Hb|Hb]; subst;
          vm_compute in Hb; congruence|].
  split; [intros v Hv; inversion Hv as [b Hb|i Hb|x Hb|Hb]; subst;
          vm_compute in Hb; congruence|].
  repeat split; repeat constructor.
Qed.

(** *** One pass of the worker loop *)

Lemma reports_app (tr1 tr2 : list Call) :
  reports (tr1 ++ tr2) = reports tr1 ++ reports tr2.
Proof. unfold reports. induction tr1 as [|c tr1 IH]; simpl; [reflexivity|].
  destruct (is_report c); simpl; congruence. Qed.

Lemma reports_headerCalls prefixRegex line :
  reports (headerCalls prefixRegex line) = [].
Proof. destruct prefixRegex; reflexivity. Qed.

(** A line that the filter lets through reaches the rest of the body, with
    at most the call of [MatchString] made so far. *)
Lemma processLine_past_filter p prefixRegex line :
  (forall re, filterRegex p = Some re -> MatchString re line <> InvertFilter (conf p)) ->
  exists tr0, processLine p prefixRegex line = parseAndSend p prefixRegex line tr0
              /\ reports tr0 = [].
Proof.
  intros Hpass. unfold processLine. destruct (filterRegex p) as [re|].
  - specialize (Hpass re eq_refl). apply Bool.eqb_false_iff in Hpass.
    rewrite Hpass. eexists. split; reflexivity.
  - eexists. split; reflexivity.
Qed.

(** The four ways the body ends below the filter, by what the line parser
    returned for the line without its headers. *)
Lemma parseAndSend_outcome p prefixRegex line tr lp :
  lineParser p = Some lp ->
  let line' := (takeHeaders prefixRegex line).1 in
  let prefixFields := (takeHeaders prefixRegex line).2 in
  let pl := (ParseLine lp line').1 in
  let tr' := tr ++ headerCalls prefixRegex line ++ [CallParseLine line'] in
  parseAndSend p prefixRegex line tr =
  match (ParseLine lp line').2 with
  | Some err => Continue (tr' ++ [ParseError line' err])
  | None =>
      if decide (size pl = 0%nat) then
        Continue (tr' ++ [Skip line' "no key/val pairs found"])
      else if allEmpty pl then
        Continue (tr' ++ [Skip line' "all values are the empty string"])
      else
        let merged := mergeFields prefixFields pl in
        let r := GetTimestamp merged (TimeFieldName (conf p)) (TimeFieldFormat (conf p)) in
        Send (tr' ++ [CallGetTimestamp merged (TimeFieldName (conf p))
                                       (TimeFieldFormat (conf p));
                      Debug line' r.2 r.1])
             {| Timestamp := r.1; Data := r.2 |}
  end.
Proof.
  intros Hlp. unfold parseAndSend. cbv zeta.
  destruct (takeHeaders prefixRegex line) as [line' prefixFields]. rewrite Hlp. simpl.
  destruct (ParseLine lp line') as [pl [err|]]; simpl.
  - by rewrite <- !app_assoc.
  - destruct (decide (size pl = 0%nat)); [by rewrite <- !app_assoc|].
    destruct (allEmpty pl); [by rewrite <- !app_assoc|].
    destruct (GetTimestamp _ _ _) as [timestamp data]. simpl.
    by rewrite <- !app_assoc.
Qed.

(** C2: for a line that the filter lets through, the rules apply in the
    order tokenize error, empty mapping, all values empty: an error of the
    line parser rejects the line whatever mapping came with it, an empty
    mapping is reported as holding no pairs although [allEmpty] holds of it,
    and a mapping of empty strings only is reported as such; in the three
    cases the pass ends in [continue], no event is sent, and the reporting
    package is called exactly once. *)
Theorem rejection_rules_in_order p prefixRegex line lp :
  lineParser p = Some lp ->
  (forall re, filterRegex p = Some re -> MatchString re line <> InvertFilter (conf p)) ->
  let line' := (takeHeaders prefixRegex line).1 in
  let pl := (ParseLine lp line').1 in
  let o := processLine p prefixRegex line in
  (forall err, (ParseLine lp line').2 = Some err ->
     emitted o = None /\ exists tr, o = Continue tr
       /\ reports tr = [ParseError line' err])
  /\ ((ParseLine lp line').2 = None -> size pl = 0%nat ->
     emitted o = None /\ exists tr, o = Continue tr
       /\ reports tr = [Skip line' "no key/val pairs found"])
  /\ ((ParseLine lp line').2 = None -> size pl <> 0%nat -> allEmpty pl = true ->
     emitted o = None /\ exists tr, o = Continue tr
       /\ reports tr = [Skip line' "all values are the empty string"])
  /\ ((ParseLine lp line').2 = None -> size pl <> 0%nat -> allEmpty pl = false ->
     exists tr e, o = Send tr e /\ reports tr = []).
Proof.
  intros Hlp Hpass line' pl o.
  destruct (processLine_past_filter p prefixRegex line Hpass) as (tr0 & Ho & Htr0).
  subst o. rewrite Ho, (parseAndSend_outcome _ _ _ _ lp Hlp). fold line' pl.
  assert (Hrep : forall c, reports (tr0 ++ headerCalls prefixRegex line
                                      ++ [CallParseLine line'] ++ [c]) = reports [c]).
  { intros c. rewrite !reports_app, Htr0, reports_headerCalls. reflexivity. }
  split; [|split; [|split]].
  - intros err Herr. rewrite Herr. split; [reflexivity|].
    eexists. split; [reflexivity|]. rewrite <- !app_assoc. apply Hrep.
  - intros Herr Hsz. rewrite Herr. destruct (decide _); [|contradiction].
    split; [reflexivity|].
    eexists. split; [reflexivity|]. rewrite <- !app_assoc. apply Hrep.
  - intros Herr Hsz Hall. rewrite Herr. destruct (decide _); [contradiction|].
    rewrite Hall. split; [reflexivity|].
    eexists. split; [reflexivity|]. rewrite <- !app_assoc. apply Hrep.
  - intros Herr Hsz Hall. rewrite Herr. destruct (decide _); [contradiction|].
    rewrite Hall. do 2 eexists. split; [reflexivity|].
    rewrite !reports_app, Htr0, reports_headerCalls. reflexivity.
Qed.

(** C3: the test for empty values reads the tokenized mapping before the
    header fields are merged into it. A line whose mapping is not empty and
    holds empty strings only is rejected as such whatever header fields the
    prefix matcher found, also when these are not empty and the merged
    mapping would not have been rejected. *)
Theorem allEmpty_checked_before_merge p re line lp prefix prefixFields pl :
  lineParser p = Some lp ->
  (forall fre, filterRegex p = Some fre -> MatchString fre line <> InvertFilter (conf p)) ->
  FindStringSubmatchMap re line = (prefix, prefixFields) ->
  ParseLine lp (strings.TrimPrefix line prefix) = (pl, None) ->
  pl <> ∅ ->
  (forall k v, pl !! k = Some v -> v = VString EmptyString) ->
  (exists tr, processLine p (Some re) line = Continue tr
     /\ reports tr = [Skip (strings.TrimPrefix line prefix)
                           "all values are the empty string"])
  /\ emitted (processLine p (Some re) line) = None
  /\ ((exists k v, prefixFields !! k = Some v /\ v <> EmptyString) ->
      allEmpty (mergeFields prefixFields pl) = false).
Proof.
  intros Hlp Hpass Hfind Hparse Hne Hall.
  destruct (processLine_past_filter p (Some re) line Hpass) as (tr0 & Ho & Htr0).
  rewrite Ho, (parseAndSend_outcome _ _ _ _ lp Hlp). simpl.
  rewrite Hfind. simpl. rewrite Hparse. simpl.
  destruct (decide (size pl = 0%nat)) as [Hsz|_].
  { apply map_size_empty_iff in Hsz. contradiction. }
  assert (Hempty : allEmpty pl = true) by (by apply allEmpty_true).
  rewrite Hempty. split; [|split; [reflexivity|]].
  { eexists. split; [reflexivity|]. rewrite !reports_app, Htr0. reflexivity. }
  intros (k & v & Hk & Hv).
  destruct (allEmpty (mergeFields prefixFields pl)) eqn:E; [|reflexivity].
  rewrite allEmpty_true in E. specialize (E k (VString v)).
  rewrite mergeFields_lookup, Hk in E. specialize (E eq_refl). congruence.
Qed.

Lemma parseAndSend_extracts p prefixRegex line tr lp :
  lineParser p = Some lp ->
  existsb is_extraction (trace (parseAndSend p prefixRegex line tr)) = true.
Proof.
  intros Hlp. rewrite (parseAndSend_outcome _ _ _ _ lp Hlp). cbv zeta.
  assert (Hex : forall tr1 tr2 tr3 l,
             existsb is_extraction (tr1 ++ tr2 ++ [CallParseLine l] ++ tr3) = true).
  { intros. rewrite !existsb_app. simpl. by rewrite !orb_true_r. }
  destruct (ParseLine lp _).2; simpl; [rewrite <- !app_assoc; apply Hex|].
  destruct (decide _); simpl; [rewrite <- !app_assoc; apply Hex|].
  destruct (allEmpty _); simpl; rewrite <- !app_assoc; apply Hex.
Qed.

(** C4: with a pattern set, the line goes on to prefix extraction and
    tokenization exactly when [matched] differs from the invert flag: when
    the pattern matches it and the flag is off, or when the pattern does not
    match it and the flag is on. Otherwise the pass makes two calls only,
    [MatchString] and the report of the skip with the observed [matched].
    With no pattern set every line goes on. *)
Theorem filter_processes_iff p prefixRegex line lp :
  lineParser p = Some lp ->
  let o := processLine p prefixRegex line in
  let processed := existsb is_extraction (trace o) in
  (forall re, filterRegex p = Some re ->
     (processed = true <-> MatchString re line <> InvertFilter (conf p))
     /\ (InvertFilter (conf p) = false ->
           (processed = true <-> MatchString re line = true))
     /\ (InvertFilter (conf p) = true ->
           (processed = true <-> MatchString re line = false))
     /\ (processed = false ->
           o = Continue [CallMatchString line;
                         SkipWithFields line "due to provided filter_regex"
                                        (MatchString re line)]))
  /\ (filterRegex p = None -> processed = true).
Proof.
  intros Hlp o processed. subst processed o. unfold processLine. split.
  - intros re ->.
    destruct (Bool.eqb (MatchString re line) (InvertFilter (conf p))) eqn:E.
    + apply Bool.eqb_prop in E. simpl.
      repeat split; try discriminate; try congruence;
        try (intros; destruct (MatchString re line); congruence).
    + apply Bool.eqb_false_iff in E.
      rewrite (parseAndSend_extracts _ _ _ _ lp Hlp).
      repeat split; try discriminate; try congruence;
        try (intros; destruct (MatchString re line); congruence).
  - intros ->. apply (parseAndSend_extracts _ _ _ _ lp Hlp).
Qed.

(** C5: when the pass sends an event, the mapping handed to the timestamp
    resolver is the tokenized mapping with the header fields written over
    it: a key of the header fields holds the header value, as a string,
    whether or not the tokenizer had bound it, and any other key holds what
    the tokenizer bound. The event carries the mapping as the resolver
    leaves it. *)
Theorem header_fields_overwrite p prefixRegex line tr e :
  processLine p prefixRegex line = Send tr e ->
  let line' := (takeHeaders prefixRegex line).1 in
  let prefixFields := (takeHeaders prefixRegex line).2 in
  exists lp pl,
    lineParser p = Some lp /\ ParseLine lp line' = (pl, None)
    /\ let merged := mergeFields prefixFields pl in
       let r := GetTimestamp merged (TimeFieldName (conf p)) (TimeFieldFormat (conf p)) in
       CallGetTimestamp merged (TimeFieldName (conf p)) (TimeFieldFormat (conf p)) ∈ tr
       /\ e = {| Timestamp := r.1; Data := r.2 |}
       /\ (forall k v, prefixFields !! k = Some v -> merged !! k = Some (VString v))
       /\ (forall k, prefixFields !! k = None -> merged !! k = pl !! k).
Proof.
  intros Hsend line' prefixFields.
  assert (Hps : exists tr0, parseAndSend p prefixRegex line tr0 = Send tr e).
  { unfold processLine in Hsend. destruct (filterRegex p) as [re|]; [|eauto].
    destruct (Bool.eqb _ _); [discriminate | eauto]. }
  destruct Hps as [tr0 Hps].
  destruct (lineParser p) as [lp|] eqn:Hlp.
  2:{ unfold parseAndSend in Hps. cbv zeta in Hps.
      destruct (takeHeaders prefixRegex line). rewrite Hlp in Hps. discriminate. }
  rewrite (parseAndSend_outcome _ _ _ _ lp Hlp) in Hps. fold line' prefixFields in Hps.
  cbv zeta in Hps.
  destruct (ParseLine lp line') as [pl [err|]] eqn:Hparse; simpl in Hps; [discriminate|].
  destruct (decide _); [discriminate|]. destruct (allEmpty pl); [discriminate|].
  injection Hps as <- <-.
  exists lp, pl. split; [reflexivity|]. split; [exact Hparse|]. cbv zeta.
  split; [|split; [reflexivity|split]].
  - rewrite !elem_of_app. right. apply elem_of_cons. by left.
  - intros k v Hk. by rewrite mergeFields_lookup, Hk.
  - intros k Hk. by rewrite mergeFields_lookup, Hk.
Qed.

(** *** Initialization *)

Lemma Init_error_iff p options err :
  (Init p options).2 = Some err <->
  FilterRegex options <> EmptyString /\ Compile (FilterRegex options) = inr err.
Proof.
  unfold Init. simpl.
  destruct (decide (FilterRegex options <> EmptyString)) as [Hne|He].
  - destruct (Compile (FilterRegex options)) as [re|err']; simpl.
    + split; [discriminate | intros [_ [=]]].
    + split; [intros [= ->]; auto | intros [_ [= ->]]; reflexivity].
  - simpl. split; [discriminate | intros [Hne _]; contradiction].
Qed.

(** After an [Init] without error the parser has its line parser, and no
    pass of the loop ends in the nil dereference. *)
Lemma processLine_after_Init p options p' prefixRegex line tr :
  Init p options = (p', None) -> processLine p' prefixRegex line <> Panic tr.
Proof.
  intros HInit.
  assert (Hlp : lineParser p' = Some KeyValLineParser).
  { unfold Init in HInit. destruct (decide _); [|by injection HInit as <-].
    destruct (Compile _); [by injection HInit as <- | discriminate]. }
  unfold processLine.
  assert (Hps : forall tr0, parseAndSend p' prefixRegex line tr0 <> Panic tr).
  { intros tr0. rewrite (parseAndSend_outcome _ _ _ _ _ Hlp). cbv zeta.
    destruct (ParseLine _ _).2; [discriminate|].
    destruct (decide _); [discriminate|]. destruct (allEmpty _); discriminate. }
  destruct (filterRegex p'); [|apply Hps].
  destruct (Bool.eqb _ _); [discriminate | apply Hps].
Qed.

(** C7: on options whose pattern is not the empty string and does not
    compile, [Init] returns the error of [regexp.Compile] and leaves the
    parser without a filter and with the line parser it had, none for a
    fresh parser; a caller that starts the pool only after an [Init]
    without error gets the error and starts no pool. *)
Theorem Init_fails_on_malformed_pattern p options err input :
  FilterRegex options <> EmptyString ->
  Compile (FilterRegex options) = inr err ->
  Init p options = (set_filterRegex None (set_conf options p), Some err)
  /\ lineParser (Init p options).1 = lineParser p
  /\ filterRegex (Init p options).1 = None
  /\ startPipeline p options input = inl err.
Proof.
  intros Hne Hc. unfold startPipeline, Init. simpl. rewrite Hc.
  destruct (decide (FilterRegex options <> EmptyString)); [|contradiction].
  simpl. auto.
Qed.

(** *** The pool *)

Section pool.

Variables (p : Parser) (prefixRegex : option ExtRegexp).

Lemma workers_split (ws : list Worker) i w :
  ws !! i = Some w ->
  exists l1 l2, ws = l1 ++ w :: l2 /\ forall w', <[i := w']> ws = l1 ++ w' :: l2.
Proof.
  intros Hi. exists (take i ws), (drop (S i) ws). split.
  - symmetry. by apply take_drop_middle.
  - intros w'. apply insert_take_drop. by eapply lookup_lt_Some.
Qed.

Lemma events_cons line rest :
  events p prefixRegex (line :: rest) =
  match emitted (processLine p prefixRegex line) with
  | Some e => e :: events p prefixRegex rest
  | None => events p prefixRegex rest
  end.
Proof. unfold events. simpl. by destruct (emitted _). Qed.

Lemma spawn_inv input : pool_inv p prefixRegex input (spawn p input).
Proof.
  split; simpl.
  - assert (Hnone : forall n, omap inflight (replicate n Receiving) = []).
    { induction n; simpl; auto. }
    by rewrite Hnone.
  - by exists [].
  - intros Hin. apply elem_of_replicate in Hin as [[=] _].
  - apply length_replicate.
Qed.

Lemma step_inv input i s s' :
  pool_inv p prefixRegex input s -> step p prefixRegex i s = Some s' ->
  pool_inv p prefixRegex input s'.
Proof.
  intros [Hev [received Htail] Hex Hcount] Hstep. unfold step in Hstep.
  destruct (workers s !! i) as [w|] eqn:Hi; [|discriminate].
  destruct (workers_split _ _ _ Hi) as (l1 & l2 & Hws & Hins).
  destruct w as [|e| |]; try discriminate.
  - destruct (lines s) as [|line rest] eqn:Hlines.
    + injection Hstep as <-. split; simpl.
      * rewrite Hins. rewrite Hws in Hev. revert Hev.
        rewrite !omap_app. simpl. done.
      * exists input. by rewrite app_nil_r.
      * reflexivity.
      * by rewrite length_insert.
    + assert (Hnoexit : Exited ∉ workers s).
      { intros Hin. specialize (Hex Hin). discriminate. }
      assert (Htail' : exists received', input = received' ++ rest).
      { exists (received ++ [line]). by rewrite <- app_assoc. }
      rewrite events_cons in Hev.
      destruct (processLine p prefixRegex line) as [tr|tr e|tr] eqn:Ho;
        injection Hstep as <-; split; simpl; try assumption.
      * intros Hin. by apply Hnoexit in Hin.
      * rewrite Hins. rewrite Hws in Hev. revert Hev. simpl.
        rewrite !omap_app. simpl. intros <-.
        apply Permutation_app_head. rewrite <- !app_assoc. simpl.
        apply Permutation_app_head.
        first [apply Permutation_middle | symmetry; apply Permutation_middle].
      * rewrite Hins. intros Hin. exfalso. apply Hnoexit. rewrite Hws.
        rewrite elem_of_app, elem_of_cons in Hin. rewrite elem_of_app, elem_of_cons.
        destruct Hin as [?|[[=]|?]]; auto.
      * by rewrite length_insert.
      * rewrite Hins. rewrite Hws in Hev. revert Hev. simpl.
        by rewrite !omap_app.
      * rewrite Hins. intros Hin. exfalso. apply Hnoexit. rewrite Hws.
        rewrite elem_of_app, elem_of_cons in Hin. rewrite elem_of_app, elem_of_cons.
        destruct Hin as [?|[[=]|?]]; auto.
      * by rewrite length_insert.
  - injection Hstep as <-. split; simpl.
    + rewrite Hins. rewrite Hws in Hev. revert Hev.
      rewrite !omap_app. simpl. intros <-. rewrite <- !app_assoc. simpl.
      apply Permutation_app_head.
      first [apply Permutation_middle | symmetry; apply Permutation_middle].
    + by exists received.
    + rewrite Hins. intros Hin. apply Hex. rewrite Hws.
      rewrite elem_of_app, elem_of_cons in Hin. rewrite elem_of_app, elem_of_cons.
      destruct Hin as [?|[[=]|?]]; auto.
    + by rewrite length_insert.
Qed.

Lemma step_moves_left i s s' :
  step p prefixRegex i s = Some s' -> (moves_left s' < moves_left s)%nat.
Proof.
  unfold step, moves_left. intros Hstep.
  destruct (workers s !! i) as [w|] eqn:Hi; [|discriminate].
  destruct (workers_split _ _ _ Hi) as (l1 & l2 & Hws & Hins).
  assert (Hsum : forall w', (sum_list_with weight (<[i := w']> (workers s)) + weight w
                             = sum_list_with weight (workers s) + weight w')%nat).
  { intros w'. rewrite Hins, Hws, !sum_list_with_app. simpl. lia. }
  destruct w as [|e| |]; try discriminate.
  - destruct (lines s) as [|line rest].
    + injection Hstep as <-. simpl. specialize (Hsum Exited). simpl in Hsum. lia.
    + destruct (processLine p prefixRegex line); injection Hstep as <-; simpl.
      * lia.
      * specialize (Hsum (Sending e)). simpl in Hsum. lia.
      * specialize (Hsum Panicked). simpl in Hsum. lia.
  - injection Hstep as <-. simpl. specialize (Hsum Receiving). simpl in Hsum. lia.
Qed.

Lemma run_inv input sched s s' :
  pool_inv p prefixRegex input s -> run p prefixRegex sched s = Some s' ->
  pool_inv p prefixRegex input s'.
Proof.
  revert s. induction sched as [|i sched IH]; simpl; intros s Hinv Hrun.
  - by injection Hrun as <-.
  - destruct (step p prefixRegex i s) as [s1|] eqn:Hstep; [|discriminate].
    eauto using step_inv.
Qed.

Lemma run_moves_left sched s s' :
  run p prefixRegex sched s = Some s' ->
  (length sched + moves_left s' <= moves_left s)%nat.
Proof.
  revert s. induction sched as [|i sched IH]; simpl; intros s Hrun.
  - injection Hrun as <-. lia.
  - destruct (step p prefixRegex i s) as [s1|] eqn:Hstep; [|discriminate].
    apply step_moves_left in Hstep. apply IH in Hrun. lia.
Qed.

Lemma moves_left_spawn input :
  moves_left (spawn p input)
  = (2 * length input + Z.to_nat (NumParsers (conf p)))%nat.
Proof.
  unfold moves_left, spawn. simpl. f_equal.
  induction (Z.to_nat _) as [|n IH]; simpl; [reflexivity | by rewrite IH].
Qed.

Lemma returned_all_exited s :
  returned s = true <-> forall w, w ∈ workers s -> w = Exited.
Proof.
  unfold returned. rewrite forallb_forall. split.
  - intros Hall w Hin. apply list_elem_of_In in Hin. specialize (Hall w Hin).
    by destruct w.
  - intros Hall w Hin. apply list_elem_of_In in Hin. by rewrite (Hall w Hin).
Qed.

Lemma step_no_panic input i s s' :
  Forall (fun line => is_Some (emitted (processLine p prefixRegex line))) input ->
  pool_inv p prefixRegex input s -> Panicked ∉ workers s ->
  step p prefixRegex i s = Some s' -> Panicked ∉ workers s'.
Proof.
  intros Hvalid [_ [received Htail] _ _] Hnp Hstep. unfold step in Hstep.
  destruct (workers s !! i) as [w|] eqn:Hi; [|discriminate].
  destruct (workers_split _ _ _ Hi) as (l1 & l2 & Hws & Hins).
  assert (Hkeep : forall w', w' <> Panicked -> Panicked ∉ <[i := w']> (workers s)).
  { intros w' Hw'. rewrite Hins. rewrite Hws in Hnp.
    rewrite not_elem_of_app, not_elem_of_cons in Hnp.
    rewrite not_elem_of_app, not_elem_of_cons.
    destruct Hnp as (Hl1 & _ & Hl2). auto. }
  destruct w as [|e| |]; try discriminate.
  - destruct (lines s) as [|line rest].
    + injection Hstep as <-. simpl. by apply Hkeep.
    + rewrite Htail, Forall_app, Forall_cons in Hvalid.
      destruct Hvalid as (_ & [e He] & _).
      destruct (processLine p prefixRegex line) eqn:Ho; simpl in He; try discriminate.
      injection Hstep as <-. simpl. by apply Hkeep.
  - injection Hstep as <-. simpl. by apply Hkeep.
Qed.

Lemma run_no_panic input sched s s' :
  Forall (fun line => is_Some (emitted (processLine p prefixRegex line))) input ->
  pool_inv p prefixRegex input s -> Panicked ∉ workers s ->
  run p prefixRegex sched s = Some s' -> Panicked ∉ workers s'.
Proof.
  intros Hvalid. revert s. induction sched as [|i sched IH]; simpl; intros s Hinv Hnp Hrun.
  - by injection Hrun as <-.
  - destruct (step p prefixRegex i s) as [s1|] eqn:Hstep; [|discriminate].
    eauto using step_inv, step_no_panic.
Qed.

(** A pool with a goroutine that is neither gone nor dead can move. *)
Lemma pool_progress s :
  Panicked ∉ workers s -> returned s = false ->
  exists i, is_Some (step p prefixRegex i s).
Proof.
  intros Hnp Hret. unfold returned in Hret.
  apply not_true_iff_false in Hret. rewrite forallb_forall in Hret.
  assert (Hw : exists w, w ∈ workers s /\ is_Exited w = false).
  { induction (workers s) as [|w ws IH].
    - exfalso. apply Hret. intros w [].
    - destruct (is_Exited w) eqn:Hw.
      + destruct IH as (w' & Hin & Hw').
        * intros Hin. apply Hnp. by right.
        * intros Hall. apply Hret. intros w' [<-|Hin]; auto.
        * exists w'. split; [by right | assumption].
      + exists w. split; [by left | assumption]. }
  destruct Hw as (w & Hin & Hw). apply list_elem_of_lookup in Hin as [i Hi].
  exists i. unfold step. rewrite Hi.
  destruct w as [|e| |]; try discriminate; [|eauto|by apply list_elem_of_lookup_2 in Hi].
  destruct (lines s); [eauto|]. destruct (processLine _ _ _); eauto.
Qed.

Lemma events_length input :
  Forall (fun line => is_Some (emitted (processLine p prefixRegex line))) input ->
  length (events p prefixRegex input) = length input.
Proof.
  induction 1 as [|line rest [e He] _ IH]; [reflexivity|].
  rewrite events_cons, He. simpl. by rewrite IH.
Qed.

(** What the sink holds when [ProcessLines] returns from a pool of one
    goroutine or more. *)
Lemma returned_sent input s :
  (0 < NumParsers (conf p))%Z ->
  pool_inv p prefixRegex input s -> returned s = true ->
  sent s ≡ₚ events p prefixRegex input.
Proof.
  intros HN [Hev _ Hex Hcount] Hret. rewrite returned_all_exited in Hret.
  assert (Hlines : lines s = []).
  { apply Hex. destruct (workers s) as [|w ws]; [simpl in Hcount; lia|].
    rewrite (Hret w) by (by left). by left. }
  assert (Hnone : forall ws : list Worker,
             (forall w, w ∈ ws -> w = Exited) -> omap inflight ws = []).
  { induction ws as [|w ws IH]; intros Hall; [reflexivity|].
    rewrite (Hall w) by (by left). simpl. apply IH. intros w' Hin. apply Hall. by right. }
  specialize (Hnone _ Hret).
  rewrite Hlines, Hnone in Hev. simpl in Hev. by rewrite app_nil_r in Hev.
Qed.

(** From a pool without a dead goroutine, some schedule brings every
    goroutine to its exit. *)
Lemma pool_can_return input n s :
  Forall (fun line => is_Some (emitted (processLine p prefixRegex line))) input ->
  (moves_left s <= n)%nat ->
  pool_inv p prefixRegex input s -> Panicked ∉ workers s ->
  exists sched s', run p prefixRegex sched s = Some s' /\ returned s' = true.
Proof.
  intros Hvalid. revert s. induction n as [|n IH]; intros s Hn Hinv Hnp.
  - destruct (returned s) eqn:Hret; [by exists [], s|].
    destruct (pool_progress s Hnp Hret) as (i & s1 & Hstep).
    apply step_moves_left in Hstep. lia.
  - destruct (returned s) eqn:Hret; [by exists [], s|].
    destruct (pool_progress s Hnp Hret) as (i & s1 & Hstep).
    destruct (IH s1) as (sched & s' & Hrun & Hret').
    + apply step_moves_left in Hstep. lia.
    + eauto using step_inv.
    + eauto using step_no_panic.
    + exists (i :: sched), s'. simpl. rewrite Hstep. auto.
Qed.

End pool.

(** C8: with more than one goroutine and more lines than goroutines, none
    of them filtered or rejected, whatever the order in which the
    goroutines move: the moves come to an end, a pool that has not returned
    can still move and can be brought to return, and when [ProcessLines]
    returns the sink holds the events of the lines, each once, in some
    order, as many as there were lines. *)
Theorem pool_sends_every_event p prefixRegex input sched s :
  (1 < NumParsers (conf p))%Z ->
  (NumParsers (conf p) < Z.of_nat (length input))%Z ->
  Forall (fun line => is_Some (emitted (processLine p prefixRegex line))) input ->
  run p prefixRegex sched (spawn p input) = Some s ->
  (length sched <= 2 * length input + Z.to_nat (NumParsers (conf p)))%nat
  /\ (returned s = false -> exists i, is_Some (step p prefixRegex i s))
  /\ (exists sched' s', run p prefixRegex sched' s = Some s' /\ returned s' = true)
  /\ (returned s = true ->
        sent s ≡ₚ events p prefixRegex input
        /\ length (sent s) = length input).
Proof.
  intros HN HM Hvalid Hrun.
  pose proof (run_inv p prefixRegex input sched _ _ (spawn_inv p prefixRegex input) Hrun)
    as Hinv.
  assert (Hnp : Panicked ∉ workers s).
  { eapply run_no_panic; [exact Hvalid | apply spawn_inv | | exact Hrun].
    simpl. intros Hin. apply elem_of_replicate in Hin as [[=] _]. }
  split; [|split; [|split]].
  - apply run_moves_left in Hrun. rewrite moves_left_spawn in Hrun. lia.
  - by apply pool_progress.
  - by eapply pool_can_return.
  - intros Hret.
    assert (Hsent : sent s ≡ₚ events p prefixRegex input).
    { apply returned_sent; [lia | assumption | assumption]. }
    split; [assumption|]. rewrite Hsent. by apply events_length.
Qed.

(** C9: a pool of zero goroutines has returned as soon as it is made: no
    goroutine exists that could move, so no line is received from the
    input, nothing is reported and nothing is sent; the lines are dropped
    without a word. *)
Theorem zero_parsers_drop_all_input p prefixRegex input :
  NumParsers (conf p) = 0%Z ->
  workers (spawn p input) = []
  /\ returned (spawn p input) = true
  /\ (forall i, step p prefixRegex i (spawn p input) = None)
  /\ (forall sched s, run p prefixRegex sched (spawn p input) = Some s ->
        sched = [] /\ lines s = input /\ reported s = [] /\ sent s = []).
Proof.
  intros HN. unfold returned, step, spawn. rewrite HN. simpl.
  split; [reflexivity|]. split; [reflexivity|]. split; [reflexivity|].
  intros [|i sched] s; simpl.
  - intros [= <-]. auto.
  - unfold step. simpl. discriminate.
Qed.

End properties.

(** ** Further properties of the package *)

Section further.

Context `{Imports}.

Local Abbreviation Fields := (gmap string (Value float64)).

Implicit Types (pl parsed : Fields) (prefixFields : gmap string string).
Implicit Types (p : Parser) (prefixRegex : option ExtRegexp) (line : string).

(** *** Initialization *)

(** X1: [Init] returns an error exactly when the pattern of the options
    is not empty and [regexp.Compile] rejects it; in every other case it
    returns nil and installs the key/val line parser. Whatever it returns,
    the options are stored in the parser. *)
Theorem Init_error_exactly_on_malformed_pattern p options :
  (forall err,
     (Init p options).2 = Some err <->
     FilterRegex options <> EmptyString /\ Compile (FilterRegex options) = inr err)
  /\ ((Init p options).2 = None <->
      FilterRegex options = EmptyString
      \/ exists re, Compile (FilterRegex options) = inl re)
  /\ ((Init p options).2 = None ->
      lineParser (Init p options).1 = Some KeyValLineParser)
  /\ conf (Init p options).1 = options.
Proof.
  unfold Init. simpl.
  destruct (decide (FilterRegex options <> EmptyString)) as [Hne|He].
  - destruct (Compile (FilterRegex options)) as [re|err'] eqn:Hc; simpl.
    + split; [|split; [|split]]; try reflexivity.
      * intros err. split; [discriminate | intros [_ [=]]].
      * split; [eauto | reflexivity].
    + split; [|split; [|split]]; try reflexivity; try discriminate.
      * intros err. split; [intros [= ->]; auto | intros [_ [= ->]]; reflexivity].
      * split; [discriminate|]. intros [Hemp|[re [=]]]. contradiction.
  - apply dec_stable in He. simpl.
    split; [|split; [|split]]; try reflexivity.
    + intros err. split; [discriminate | intros [Hne _]; contradiction].
    + split; [auto | reflexivity].
Qed.

(** X2: an [Init] whose pattern is empty does not touch [filterRegex]. A
    parser that was initialised with a pattern and is initialised again
    with the empty pattern goes on filtering with the earlier pattern. *)
Theorem Init_keeps_earlier_filter p options1 options2 p1 re :
  FilterRegex options1 <> EmptyString ->
  Compile (FilterRegex options1) = inl re ->
  Init p options1 = (p1, None) ->
  FilterRegex options2 = EmptyString ->
  (Init p1 options2).2 = None
  /\ filterRegex (Init p1 options2).1 = Some re
  /\ forall prefixRegex line,
       MatchString re line = InvertFilter options2 ->
       processLine (Init p1 options2).1 prefixRegex line
       = Continue [CallMatchString line;
                   SkipWithFields line "due to provided filter_regex"
                                  (MatchString re line)].
Proof.
  intros Hne Hc HInit Hemp.
  assert (Hre : filterRegex p1 = Some re).
  { unfold Init in HInit. simpl in HInit.
    destruct (decide _); [|contradiction]. rewrite Hc in HInit.
    by injection HInit as <-. }
  unfold Init. simpl. rewrite Hemp.
  destruct (decide (EmptyString <> EmptyString)) as [Hbad|_]; [contradiction|].
  simpl. split; [reflexivity|]. split; [assumption|].
  intros prefixRegex line Hm. unfold processLine. simpl. rewrite Hre, Hm.
  by rewrite Bool.eqb_reflx.
Qed.

(** *** One pass of the worker loop *)

Lemma parseAndSend_Panic p prefixRegex line tr :
  lineParser p = None ->
  parseAndSend p prefixRegex line tr = Panic (tr ++ headerCalls prefixRegex line).
Proof.
  intros Hlp. unfold parseAndSend. cbv zeta.
  destruct (takeHeaders prefixRegex line). by rewrite Hlp.
Qed.

Lemma parseAndSend_reports p prefixRegex line tr :
  reports tr = [] ->
  match parseAndSend p prefixRegex line tr with
  | Continue tr' => exists c, reports tr' = [c]
  | Send tr' _ => reports tr' = []
  | Panic tr' => reports tr' = []
  end.
Proof.
  intros Htr. destruct (lineParser p) as [lp|] eqn:Hlp.
  - rewrite (parseAndSend_outcome _ _ _ _ lp Hlp). cbv zeta.
    assert (Hpre : forall l, reports (tr ++ headerCalls prefixRegex line ++ [CallParseLine l]) = []).
    { intros l. by rewrite !reports_app, Htr, reports_headerCalls. }
    destruct (ParseLine lp _).2; [rewrite reports_app, Hpre; eauto|].
    destruct (decide _); [rewrite reports_app, Hpre; eauto|].
    destruct (allEmpty _); [rewrite reports_app, Hpre; eauto|].
    by rewrite reports_app, Hpre.
  - rewrite parseAndSend_Panic by assumption.
    by rewrite reports_app, Htr, reports_headerCalls.
Qed.

(** X3: every pass either ends in [continue] after exactly one call of the
    reporting package, or sends an event without any report, or panics
    without any report: no line is both reported and sent, none is
    reported twice, and none is dropped without a report. *)
Theorem pass_reports_once_or_sends p prefixRegex line :
  match processLine p prefixRegex line with
  | Continue tr => exists c, reports tr = [c]
  | Send tr _ => reports tr = []
  | Panic tr => reports tr = []
  end.
Proof.
  unfold processLine. destruct (filterRegex p) as [re|].
  - destruct (Bool.eqb _ _); [simpl; eauto|].
    by apply parseAndSend_reports.
  - by apply parseAndSend_reports.
Qed.

(** X4: the timestamp resolver is called by the passes that send an event
    and by no other, once, after every other collaborator; the event holds
    the timestamp and the mapping that this call returned, and the debug
    log that closes the pass shows the same two. The line parser is called
    at most once in a pass, and [MatchString] once when a filter is set. *)
Theorem pass_calls_in_order p prefixRegex line :
  let o := processLine p prefixRegex line in
  (existsb is_CallGetTimestamp (trace o) = true <-> is_Some (emitted o))
  /\ (forall tr e, o = Send tr e ->
        exists tr0 m l,
          tr = tr0 ++ [CallGetTimestamp m (TimeFieldName (conf p))
                                        (TimeFieldFormat (conf p));
                       Debug l (Data e) (Timestamp e)]
          /\ existsb is_CallGetTimestamp tr0 = false
          /\ GetTimestamp m (TimeFieldName (conf p)) (TimeFieldFormat (conf p))
             = (Timestamp e, Data e))
  /\ (length (List.filter is_CallParseLine (trace o)) <= 1)%nat
  /\ length (List.filter is_CallMatchString (trace o))
     = match filterRegex p with Some _ => 1%nat | None => 0%nat end.
Proof.
  assert (Hps : forall tr0,
    existsb is_CallGetTimestamp tr0 = false ->
    List.filter is_CallParseLine tr0 = [] ->
    let o := parseAndSend p prefixRegex line tr0 in
    (existsb is_CallGetTimestamp (trace o) = true <-> is_Some (emitted o))
    /\ (forall tr e, o = Send tr e ->
          exists tr1 m l,
            tr = tr1 ++ [CallGetTimestamp m (TimeFieldName (conf p))
                                          (TimeFieldFormat (conf p));
                         Debug l (Data e) (Timestamp e)]
            /\ existsb is_CallGetTimestamp tr1 = false
            /\ GetTimestamp m (TimeFieldName (conf p)) (TimeFieldFormat (conf p))
               = (Timestamp e, Data e))
    /\ (length (List.filter is_CallParseLine (trace o)) <= 1)%nat
    /\ List.filter is_CallMatchString (trace o) = List.filter is_CallMatchString tr0).
  { intros tr0 Hg Hpl.
    assert (Hh : existsb is_CallGetTimestamp (headerCalls prefixRegex line) = false
                 /\ List.filter is_CallParseLine (headerCalls prefixRegex line) = []
                 /\ List.filter is_CallMatchString (headerCalls prefixRegex line) = []).
    { by destruct prefixRegex. }
    destruct Hh as (Hh1 & Hh2 & Hh3).
    destruct (lineParser p) as [lp|] eqn:Hlp.
    - rewrite (parseAndSend_outcome _ _ _ _ lp Hlp). cbv zeta.
      set (line' := (takeHeaders prefixRegex line).1).
      set (pre := tr0 ++ headerCalls prefixRegex line ++ [CallParseLine line']).
      assert (Hpre1 : existsb is_CallGetTimestamp pre = false).
      { unfold pre. by rewrite !existsb_app, Hg, Hh1. }
      assert (Hpre2 : List.filter is_CallParseLine pre = [CallParseLine line']).
      { unfold pre. by rewrite !List.filter_app, Hpl, Hh2. }
      assert (Hpre3 : List.filter is_CallMatchString pre
                      = List.filter is_CallMatchString tr0).
      { unfold pre. rewrite !List.filter_app, Hh3. simpl. by rewrite app_nil_r. }
      assert (Hrej : forall c,
        is_CallGetTimestamp c = false -> is_CallParseLine c = false ->
        is_CallMatchString c = false ->
        (existsb is_CallGetTimestamp (trace (Continue (pre ++ [c]))) = true
           <-> is_Some (emitted (Continue (pre ++ [c]))))
        /\ (forall tr e, Continue (pre ++ [c]) = Send tr e ->
              exists tr1 m l,
                tr = tr1 ++ [CallGetTimestamp m (TimeFieldName (conf p))
                                              (TimeFieldFormat (conf p));
                             Debug l (Data e) (Timestamp e)]
                /\ existsb is_CallGetTimestamp tr1 = false
                /\ GetTimestamp m (TimeFieldName (conf p)) (TimeFieldFormat (conf p))
                   = (Timestamp e, Data e))
        /\ (length (List.filter is_CallParseLine (trace (Continue (pre ++ [c]))))
            <= 1)%nat
        /\ List.filter is_CallMatchString (trace (Continue (pre ++ [c])))
           = List.filter is_CallMatchString tr0).
      { intros c Hc1 Hc2 Hc3. simpl.
        rewrite existsb_app, !List.filter_app, Hpre1, Hpre2, Hpre3. simpl.
        rewrite Hc1, Hc2, Hc3. simpl. rewrite app_nil_r.
        split; [|split; [discriminate | split; [lia | reflexivity]]].
        split; [discriminate | intros [? [=]]]. }
      destruct (ParseLine lp line').2; [by apply Hrej|].
      destruct (decide _); [by apply Hrej|].
      destruct (allEmpty _); [by apply Hrej|].
      simpl. rewrite existsb_app, !List.filter_app, Hpre1, Hpre2, Hpre3. simpl.
      rewrite app_nil_r.
      split; [split; eauto|]. split; [|split; [lia | reflexivity]].
      intros tr e [= <- <-]. simpl. eexists pre, _, _.
      split; [reflexivity|]. split; [assumption|]. by destruct (GetTimestamp _ _ _).
    - rewrite parseAndSend_Panic by assumption. simpl.
      rewrite existsb_app, !List.filter_app, Hg, Hh1, Hpl, Hh2, Hh3. simpl.
      rewrite app_nil_r.
      split; [|split; [discriminate | split; [lia | reflexivity]]].
      split; [discriminate | intros [? [=]]]. }
  cbv zeta. unfold processLine. destruct (filterRegex p) as [re|].
  - destruct (Bool.eqb _ _).
    + simpl. split; [|split; [discriminate | split; [lia | reflexivity]]].
      split; [discriminate | intros [? [=]]].
    + destruct (Hps [CallMatchString line] eq_refl eq_refl) as (H1 & H2 & H3 & H4).
      rewrite H4. auto.
  - destruct (Hps [] eq_refl eq_refl) as (H1 & H2 & H3 & H4).
    rewrite H4. auto.
Qed.

(** X5: two parsers with the same pattern and opposite invert flags never
    agree on a line: the line that one of them hands on to prefix
    extraction and tokenization is the line the other skips. *)
Theorem invert_flag_flips_the_filter p1 p2 prefixRegex line re lp1 lp2 :
  filterRegex p1 = Some re -> filterRegex p2 = Some re ->
  InvertFilter (conf p1) = negb (InvertFilter (conf p2)) ->
  lineParser p1 = Some lp1 -> lineParser p2 = Some lp2 ->
  existsb is_extraction (trace (processLine p1 prefixRegex line))
  = negb (existsb is_extraction (trace (processLine p2 prefixRegex line))).
Proof.
  intros Hre1 Hre2 Hinv Hlp1 Hlp2. unfold processLine.
  rewrite Hre1, Hre2, Hinv.
  destruct (MatchString re line), (InvertFilter (conf p2)); simpl;
    rewrite ?(parseAndSend_extracts _ _ _ _ _ Hlp1),
            ?(parseAndSend_extracts _ _ _ _ _ Hlp2); reflexivity.
Qed.

(** *** The headers of a line *)

Lemma TrimPrefix_app (prefix rest : string) :
  strings.TrimPrefix (prefix +:+ rest) prefix = rest.
Proof.
  unfold strings.TrimPrefix.
  assert (Hp : strings.HasPrefix (prefix +:+ rest) prefix = true).
  { induction prefix as [|c prefix IH]; simpl; [by destruct rest|].
    by destruct (decide (c = c)). }
  rewrite Hp. induction prefix as [|c prefix IH]; simpl; [reflexivity|].
  apply IH. simpl in Hp. by destruct (decide (c = c)).
Qed.

Lemma TrimPrefix_empty (s : string) : strings.TrimPrefix s EmptyString = s.
Proof. unfold strings.TrimPrefix. by destruct s. Qed.

(** X6: without a prefix matcher the line goes to the tokenizer as it is,
    with no header fields. With one, the tokenizer gets what follows the
    matched prefix; a matcher that found nothing and returns the empty
    prefix, or that returns a text the line does not start with, leaves the
    line whole. The header fields are those of the matcher in all cases. *)
Theorem takeHeaders_strips_the_prefix :
  (forall line, takeHeaders None line = (line, ∅))
  /\ (forall re prefix rest flds,
        FindStringSubmatchMap re (prefix +:+ rest) = (prefix, flds) ->
        takeHeaders (Some re) (prefix +:+ rest) = (rest, flds))
  /\ (forall re line flds,
        FindStringSubmatchMap re line = (EmptyString, flds) ->
        takeHeaders (Some re) line = (line, flds))
  /\ (forall re line prefix flds,
        FindStringSubmatchMap re line = (prefix, flds) ->
        strings.HasPrefix line prefix = false ->
        takeHeaders (Some re) line = (line, flds)).
Proof.
  split; [reflexivity|]. split; [|split].
  - intros re prefix rest flds Hf. unfold takeHeaders. rewrite Hf.
    by rewrite TrimPrefix_app.
  - intros re line flds Hf. unfold takeHeaders. rewrite Hf.
    by rewrite TrimPrefix_empty.
  - intros re line prefix flds Hf Hno. unfold takeHeaders. rewrite Hf.
    unfold strings.TrimPrefix. by rewrite Hno.
Qed.

(** *** allEmpty and the merge *)

(** X7: in whatever order the range statement of [allEmpty] visits the
    entries of the map, the loop returns the same answer. *)
Theorem allEmpty_any_iteration_order pl (entries : list (string * Value float64)) :
  entries ≡ₚ map_to_list pl -> allEmpty_loop entries = allEmpty pl.
Proof. intros Hp. unfold allEmpty. by apply allEmpty_loop_Permutation. Qed.

(** X8: the merge loop yields the union of the header fields, as strings,
    with the tokenized mapping, the header fields first: its keys are the
    keys of both, no tokenized key is lost, merging nil header fields
    changes nothing, and merging the same header fields again changes
    nothing either. *)
Theorem mergeFields_is_union prefixFields parsed :
  mergeFields prefixFields parsed = (VString <$> prefixFields) ∪ parsed
  /\ dom (mergeFields prefixFields parsed) = dom prefixFields ∪ dom parsed
  /\ (size parsed <= size (mergeFields prefixFields parsed))%nat
  /\ mergeFields ∅ parsed = parsed
  /\ mergeFields prefixFields (mergeFields prefixFields parsed)
     = mergeFields prefixFields parsed.
Proof.
  assert (Hunion : forall pf m, mergeFields pf m = (VString <$> pf) ∪ m).
  { intros pf m. apply map_eq. intros k.
    rewrite mergeFields_lookup, lookup_union, lookup_fmap.
    by destruct (pf !! k), (m !! k). }
  split; [apply Hunion|]. split; [|split; [|split]].
  - rewrite Hunion, dom_union_L, dom_fmap_L. reflexivity.
  - rewrite <- !size_dom. apply subseteq_size.
    rewrite Hunion, dom_union_L. set_solver.
  - rewrite Hunion, fmap_empty. apply (left_id_L ∅ (∪)).
  - rewrite !Hunion, (assoc_L (∪)), (idemp_L (∪)). reflexivity.
Qed.

(** *** The key/val line parser *)

Lemma last_occurrence_unique (key : string) (l1 l2 l1' l2' : list (string * string))
    (val val' : string) :
  l1 ++ (key, val) :: l2 = l1' ++ (key, val') :: l2' ->
  (key ∉ l2.*1) -> (key ∉ l2'.*1) -> val = val'.
Proof.
  revert l1'. induction l1 as [|x l1 IH]; intros [|x' l1'] Heq Hl2 Hl2'; simpl in Heq.
  - by injection Heq.
  - injection Heq as _ ->. exfalso. apply Hl2.
    rewrite fmap_app, elem_of_app. right. rewrite fmap_cons. by left.
  - injection Heq as _ <-. exfalso. apply Hl2'.
    rewrite fmap_app, elem_of_app. right. rewrite fmap_cons. by left.
  - injection Heq as _ Heq. eauto.
Qed.

Lemma ParseLine_KeyVal_lookup line key :
  ((key ∉ (logfmt_pairs line).*1)
   /\ (ParseLine KeyValLineParser line).1 !! key = None)
  \/ exists l1 val l2 v,
       logfmt_pairs line = l1 ++ (key, val) :: l2 /\ (key ∉ l2.*1)
       /\ inferred val v /\ (ParseLine KeyValLineParser line).1 !! key = Some v.
Proof.
  simpl. unfold Unmarshal.
  destruct (HandleAll_f (logfmt_pairs line) ∅) as (parsed' & -> & Hkeys). simpl.
  destruct (Hkeys key) as [[Hnot Hsame]|Hlast]; [left | by right].
  by rewrite Hsame, lookup_empty.
Qed.

Lemma inferred_empty_string val :
  ParseFloat EmptyString = None ->
  inferred val (VString EmptyString) <-> val = EmptyString.
Proof.
  intros Hf. split.
  - intros Hi. by inversion Hi.
  - intros ->. by constructor.
Qed.

(** X9: with the key/val line parser, and a float parser that rejects the
    empty text as Go's does, [allEmpty] holds of the parsed line exactly
    when the last token of every key has an empty value. So a line whose
    only key is first given a value and then none is rejected as empty,
    and a line that ends by giving it a value is not. *)
Theorem allEmpty_of_parsed_line line :
  ParseFloat EmptyString = None ->
  allEmpty (ParseLine KeyValLineParser line).1 = true <->
  forall l1 key val l2,
    logfmt_pairs line = l1 ++ (key, val) :: l2 -> (key ∉ l2.*1) ->
    val = EmptyString.
Proof.
  intros Hf. rewrite allEmpty_true. split.
  - intros Hall l1 key val l2 Heq Hl2.
    destruct (ParseLine_KeyVal_lookup line key)
      as [[Hnot _]|(l1' & val' & l2' & v & Heq' & Hl2' & Hv & Hlook)].
    + exfalso. apply Hnot. rewrite Heq, fmap_app, elem_of_app. right.
      rewrite fmap_cons. by left.
    + rewrite Heq in Heq'.
      rewrite (last_occurrence_unique _ _ _ _ _ _ _ Heq' Hl2 Hl2').
      rewrite (Hall key v Hlook) in Hv. by apply inferred_empty_string in Hv.
  - intros Hlast key v Hlook.
    destruct (ParseLine_KeyVal_lookup line key)
      as [[_ Hnone]|(l1 & val & l2 & v' & Heq & Hl2 & Hv & Hlook')]; [congruence|].
    assert (v' = v) as -> by congruence.
    rewrite (Hlast _ _ _ _ Heq Hl2) in Hv.
    eapply inferred_unique; [exact Hv | by apply inferred_empty_string].
Qed.

(** X10: the keys of the parsed line are the keys of the tokens of the
    line: the mapping is empty exactly when the scanner found no token, it
    never has more entries than the line has tokens, and it has as many
    when no key is repeated. *)
Theorem keys_of_parsed_line line :
  dom (ParseLine KeyValLineParser line).1
  = list_to_set ((logfmt_pairs line).*1)
  /\ ((ParseLine KeyValLineParser line).1 = ∅ <-> logfmt_pairs line = [])
  /\ (size (ParseLine KeyValLineParser line).1 <= length (logfmt_pairs line))%nat
  /\ (NoDup ((logfmt_pairs line).*1) ->
      size (ParseLine KeyValLineParser line).1 = length (logfmt_pairs line)).
Proof.
  assert (Hdom : dom (ParseLine KeyValLineParser line).1
                 = list_to_set ((logfmt_pairs line).*1)).
  { apply set_eq. intros key. rewrite elem_of_dom, elem_of_list_to_set.
    destruct (ParseLine_KeyVal_lookup line key)
      as [[Hnot Hnone]|(l1 & val & l2 & v & Heq & _ & _ & Hlook)].
    - rewrite Hnone. split; [intros [? [=]] | contradiction].
    - rewrite Hlook, Heq, fmap_app, elem_of_app, fmap_cons.
      split; [intros _; right; by left | eauto]. }
  assert (Hsize : forall l : list string,
            (size (list_to_set l : gset string) <= length l)%nat).
  { induction l as [|x l IH].
    { change (list_to_set [] : gset string) with (∅ : gset string).
      by rewrite size_empty. }
    change (list_to_set (x :: l) : gset string)
      with ({[x]} ∪ list_to_set l : gset string).
    rewrite size_union_alt, size_singleton. simpl.
    assert (size (list_to_set l ∖ {[x]} : gset string)
            <= size (list_to_set l : gset string))%nat
      by (apply subseteq_size; intros y Hy; apply elem_of_difference in Hy; tauto).
    lia. }
  split; [exact Hdom|]. split; [|split].
  - rewrite <- dom_empty_iff_L, Hdom. split.
    + destruct (logfmt_pairs line) as [|[k v] l]; [reflexivity|].
      intros Hemp. exfalso.
      assert (Hk : k ∈ (list_to_set ((k, v) :: l).*1 : gset string))
        by (apply elem_of_list_to_set; by left).
      rewrite Hemp in Hk. by apply elem_of_empty in Hk.
    + by intros ->.
  - rewrite <- size_dom, Hdom. etrans; [apply Hsize|]. by rewrite length_fmap.
  - intros Hnd. rewrite <- size_dom, Hdom, size_list_to_set by assumption.
    by rewrite length_fmap.
Qed.

(** X11: the boolean parse and the integer parse both accept the texts 1
    and 0 and no other text: for every other value, trying the boolean
    first does not change what an integer is stored as. *)
Theorem only_one_and_zero_are_both (val : string) b i :
  strconv.ParseBool val = Some b -> strconv.Atoi val = Some i ->
  (val = "1" /\ b = true /\ i = 1) \/ (val = "0" /\ b = false /\ i = 0).
Proof.
  unfold strconv.ParseBool. intros Hb Ha.
  repeat (destruct (decide _) as [->|_] in Hb;
          [vm_compute in Ha; first [discriminate | injection Ha as <-; injection Hb as <-; auto]|]).
  discriminate.
Qed.

(** *** The pool *)

Lemma processLine_reports p prefixRegex line :
  match processLine p prefixRegex line with
  | Continue tr => length (reports tr) = 1%nat
  | Send tr _ => reports tr = []
  | Panic tr => reports tr = []
  end.
Proof.
  assert (Hps : forall tr0, reports tr0 = [] ->
            match parseAndSend p prefixRegex line tr0 with
            | Continue tr => length (reports tr) = 1%nat
            | Send tr _ => reports tr = []
            | Panic tr => reports tr = []
            end).
  { intros tr0 Htr0. pose proof (parseAndSend_reports p prefixRegex line tr0 Htr0) as Hr.
    destruct (parseAndSend p prefixRegex line tr0); [|assumption..].
    destruct Hr as [c ->]. reflexivity. }
  unfold processLine. destruct (filterRegex p) as [re|]; [|by apply Hps].
  destruct (Bool.eqb _ _); [reflexivity | by apply Hps].
Qed.

Lemma processLine_no_panic p prefixRegex line lp tr :
  lineParser p = Some lp -> processLine p prefixRegex line <> Panic tr.
Proof.
  intros Hlp. unfold processLine.
  assert (Hps : forall tr0, parseAndSend p prefixRegex line tr0 <> Panic tr).
  { intros tr0. rewrite (parseAndSend_outcome _ _ _ _ _ Hlp). cbv zeta.
    destruct (ParseLine _ _).2; [discriminate|].
    destruct (decide _); [discriminate|]. destruct (allEmpty _); discriminate. }
  destruct (filterRegex p); [|apply Hps].
  destruct (Bool.eqb _ _); [discriminate | apply Hps].
Qed.

Lemma step_accounted p prefixRegex lp i s s' :
  lineParser p = Some lp ->
  step p prefixRegex i s = Some s' ->
  accounted s' = accounted s /\ (Panicked ∉ workers s -> Panicked ∉ workers s').
Proof.
  intros Hlp Hstep. unfold step in Hstep. unfold accounted.
  destruct (workers s !! i) as [w|] eqn:Hi; [|discriminate].
  destruct (workers_split _ _ _ Hi) as (l1 & l2 & Hws & Hins).
  assert (Hkeep : forall w', w' <> Panicked ->
            Panicked ∉ workers s -> Panicked ∉ <[i := w']> (workers s)).
  { intros w' Hw'. rewrite Hins, Hws.
    rewrite !not_elem_of_app, !not_elem_of_cons. intros (Hl1 & _ & Hl2). auto. }
  destruct w as [|e| |]; try discriminate.
  - destruct (lines s) as [|line rest].
    + injection Hstep as <-. simpl. split; [|by apply Hkeep].
      rewrite Hins, Hws, !omap_app. reflexivity.
    + pose proof (processLine_reports p prefixRegex line) as Hr.
      pose proof (processLine_no_panic p prefixRegex line lp) as Hnp.
      destruct (processLine p prefixRegex line) as [tr|tr e|tr];
        [| |by destruct (Hnp tr)]; injection Hstep as <-; simpl.
      * split; [|auto]. rewrite reports_app, length_app, Hr. lia.
      * split; [|by apply Hkeep].
        rewrite reports_app, Hr, app_nil_r, Hins, Hws, !omap_app, !length_app. simpl. lia.
  - injection Hstep as <-. simpl. split; [|by apply Hkeep].
    rewrite Hins, Hws, !omap_app, !length_app. simpl. lia.
Qed.

Lemma run_accounted p prefixRegex lp sched s s' :
  lineParser p = Some lp ->
  run p prefixRegex sched s = Some s' ->
  accounted s' = accounted s /\ (Panicked ∉ workers s -> Panicked ∉ workers s').
Proof.
  intros Hlp. revert s. induction sched as [|i sched IH]; simpl; intros s Hrun.
  - by injection Hrun as <-.
  - destruct (step p prefixRegex i s) as [s1|] eqn:Hstep; [|discriminate].
    destruct (step_accounted _ _ _ _ _ _ Hlp Hstep) as [Ha Hp].
    destruct (IH _ Hrun) as [Ha' Hp']. split; [congruence | auto].
Qed.

Lemma can_return p prefixRegex lp n s :
  lineParser p = Some lp -> (moves_left s <= n)%nat -> Panicked ∉ workers s ->
  exists sched s', run p prefixRegex sched s = Some s' /\ returned s' = true.
Proof.
  intros Hlp. revert s. induction n as [|n IH]; intros s Hn Hnp.
  - destruct (returned s) eqn:Hret; [by exists [], s|].
    destruct (pool_progress p prefixRegex s Hnp Hret) as (i & s1 & Hstep).
    apply step_moves_left in Hstep. lia.
  - destruct (returned s) eqn:Hret; [by exists [], s|].
    destruct (pool_progress p prefixRegex s Hnp Hret) as (i & s1 & Hstep).
    destruct (IH s1) as (sched & s' & Hrun & Hret').
    + apply step_moves_left in Hstep. lia.
    + by eapply step_accounted.
    + exists (i :: sched), s'. simpl. by rewrite Hstep.
Qed.

Lemma spawn_no_panic p input : Panicked ∉ workers (spawn p input).
Proof. simpl. intros Hin. apply elem_of_replicate in Hin as [[=] _]. Qed.

Lemma omap_inflight_length (ws : list Worker) :
  (length (omap inflight ws) <= length ws)%nat.
Proof.
  induction ws as [|w ws IH]; [reflexivity|].
  change (w :: ws) with ([w] ++ ws). rewrite omap_app, !length_app.
  destruct w; simpl; lia.
Qed.

(** X12: with a line parser set, whatever the number of goroutines and
    whatever the lines, every line is in exactly one place at every moment:
    still to be received, held in a pending send, in the sink, or
    reported. The pool is never more than [NumParsers] lines ahead of the
    sink and the reports. It can always be brought to return when there is
    a goroutine, and when it returns the input is drained and each line
    has given one event or one report. *)
Theorem pool_accounts_for_every_line p prefixRegex lp input sched s :
  lineParser p = Some lp ->
  run p prefixRegex sched (spawn p input) = Some s ->
  accounted s = length input
  /\ (length input
      <= length (lines s) + length (sent s) + length (reports (reported s))
         + Z.to_nat (NumParsers (conf p)))%nat
  /\ (exists sched' s', run p prefixRegex sched' s = Some s' /\ returned s' = true)
  /\ ((0 < NumParsers (conf p))%Z -> returned s = true ->
      lines s = []
      /\ sent s ≡ₚ events p prefixRegex input
      /\ (length (sent s) + length (reports (reported s)))%nat = length input).
Proof.
  intros Hlp Hrun.
  pose proof (run_inv p prefixRegex input sched _ _ (spawn_inv p prefixRegex input) Hrun)
    as Hinv.
  destruct (run_accounted _ _ _ _ _ _ Hlp Hrun) as [Hacc Hnp].
  specialize (Hnp (spawn_no_panic p input)).
  assert (Hspawn : accounted (spawn p input) = length input).
  { unfold accounted, spawn. simpl.
    assert (Hnone : forall n, omap inflight (replicate n Receiving) = [])
      by (induction n; simpl; auto).
    rewrite Hnone. simpl. lia. }
  rewrite Hspawn in Hacc.
  split; [exact Hacc|]. split; [|split].
  - pose proof (omap_inflight_length (workers s)) as Hle.
    rewrite (inv_count _ _ _ _ Hinv) in Hle. unfold accounted in Hacc. lia.
  - by eapply can_return.
  - intros HN Hret.
    pose proof (returned_sent p prefixRegex input s HN Hinv Hret) as Hsent.
    assert (Hlines : lines s = []).
    { apply (inv_exited _ _ _ _ Hinv). rewrite returned_all_exited in Hret.
      pose proof (inv_count _ _ _ _ Hinv) as Hc.
      destruct (workers s) as [|w ws]; [simpl in Hc; lia|].
      rewrite (Hret w) by (by left). by left. }
    split; [assumption|]. split; [assumption|].
    assert (Hnone : omap inflight (workers s) = []).
    { rewrite returned_all_exited in Hret. revert Hret.
      generalize (workers s). induction l as [|w ws IH]; intros Hall; [reflexivity|].
      rewrite (Hall w) by (by left). simpl. apply IH. intros w' Hin. apply Hall. by right. }
    unfold accounted in Hacc. rewrite Hnone, Hlines in Hacc. simpl in Hacc. lia.
Qed.

(** X13: at every moment of every run, whatever the parser: the sink holds
    only events of lines of the input, none more often than the input
    gives it, and the lines not yet received are a tail of the input, so
    that the lines are received in their order and none twice. *)
Theorem pool_never_invents_or_repeats p prefixRegex input sched s :
  run p prefixRegex sched (spawn p input) = Some s ->
  sent s ⊆+ events p prefixRegex input
  /\ (exists received, input = received ++ lines s)
  /\ (length (sent s) <= length input)%nat.
Proof.
  intros Hrun.
  pose proof (run_inv p prefixRegex input sched _ _ (spawn_inv p prefixRegex input) Hrun)
    as [Hev Htail _ _].
  assert (Hsub : sent s ⊆+ events p prefixRegex input).
  { rewrite <- Hev. apply submseteq_inserts_r. reflexivity. }
  split; [assumption|]. split; [assumption|].
  apply submseteq_length in Hsub. etrans; [exact Hsub|].
  clear. induction input as [|l input IH]; [reflexivity|].
  rewrite events_cons. destruct (emitted _); simpl; lia.
Qed.

Lemma single_worker_step p prefixRegex input i s s' w :
  workers s = [w] ->
  sent s ++ option_list (inflight w) ++ events p prefixRegex (lines s)
    = events p prefixRegex input ->
  reported s ++ flat_map (fun l => trace (processLine p prefixRegex l)) (lines s)
    = flat_map (fun l => trace (processLine p prefixRegex l)) input ->
  step p prefixRegex i s = Some s' ->
  exists w',
    workers s' = [w']
    /\ sent s' ++ option_list (inflight w') ++ events p prefixRegex (lines s')
       = events p prefixRegex input
    /\ reported s' ++ flat_map (fun l => trace (processLine p prefixRegex l)) (lines s')
       = flat_map (fun l => trace (processLine p prefixRegex l)) input.
Proof.
  intros Hws Hev Hrep Hstep. unfold step in Hstep. rewrite Hws in Hstep.
  destruct i as [|i]; [|discriminate]. simpl in Hstep.
  destruct w as [|e| |]; try discriminate.
  - destruct (lines s) as [|line rest].
    + injection Hstep as <-. simpl. by exists Exited.
    + rewrite events_cons in Hev. simpl in Hrep.
      destruct (processLine p prefixRegex line) as [tr|tr e|tr];
        injection Hstep as <-; simpl in *;
        [exists Receiving | exists (Sending e) | exists Panicked];
        (split; [reflexivity|]); (split; [assumption|]);
        by rewrite <- app_assoc.
  - injection Hstep as <-. simpl in *. exists Receiving.
    split; [reflexivity|]. split; [by rewrite <- app_assoc | assumption].
Qed.

(** X14: a pool of one goroutine keeps the order of the input. At every
    moment the sink, then the pending send, then the lines still to be
    received give the events of the input in the order of the lines, and
    the calls made so far are those of the lines received, in order; when
    [ProcessLines] returns, the sink holds the events in the order of their
    lines. *)
Theorem single_parser_keeps_order p prefixRegex input sched s :
  NumParsers (conf p) = 1%Z ->
  run p prefixRegex sched (spawn p input) = Some s ->
  (exists w,
     workers s = [w]
     /\ sent s ++ option_list (inflight w) ++ events p prefixRegex (lines s)
        = events p prefixRegex input
     /\ reported s ++ flat_map (fun l => trace (processLine p prefixRegex l)) (lines s)
        = flat_map (fun l => trace (processLine p prefixRegex l)) input)
  /\ (returned s = true ->
      sent s = events p prefixRegex input
      /\ reported s = flat_map (fun l => trace (processLine p prefixRegex l)) input).
Proof.
  intros HN Hrun.
  assert (Hinv : exists w,
     workers s = [w]
     /\ sent s ++ option_list (inflight w) ++ events p prefixRegex (lines s)
        = events p prefixRegex input
     /\ reported s ++ flat_map (fun l => trace (processLine p prefixRegex l)) (lines s)
        = flat_map (fun l => trace (processLine p prefixRegex l)) input).
  { assert (Hstart : exists w,
       workers (spawn p input) = [w]
       /\ sent (spawn p input) ++ option_list (inflight w)
            ++ events p prefixRegex (lines (spawn p input))
          = events p prefixRegex input
       /\ reported (spawn p input)
            ++ flat_map (fun l => trace (processLine p prefixRegex l))
                 (lines (spawn p input))
          = flat_map (fun l => trace (processLine p prefixRegex l)) input).
    { exists Receiving. unfold spawn. simpl. by rewrite HN. }
    revert Hstart Hrun. generalize (spawn p input).
    induction sched as [|i sched IH]; simpl; intros s0 Hs0 Hrun.
    - by injection Hrun as <-.
    - destruct (step p prefixRegex i s0) as [s1|] eqn:Hstep; [|discriminate].
      destruct Hs0 as (w & Hws & Hev & Hrep).
      eapply IH; [|exact Hrun]. by eapply single_worker_step. }
  split; [exact Hinv|]. intros Hret.
  destruct Hinv as (w & Hws & Hev & Hrep).
  unfold returned in Hret. rewrite Hws in Hret. simpl in Hret.
  destruct w; try discriminate.
  pose proof (run_inv p prefixRegex input sched _ _ (spawn_inv p prefixRegex input) Hrun)
    as Hpool.
  assert (Hlines : lines s = []).
  { apply (inv_exited _ _ _ _ Hpool). rewrite Hws. by left. }
  rewrite Hlines in Hev, Hrep. simpl in Hev, Hrep.
  by rewrite !app_nil_r in Hev, Hrep.
Qed.

(** X15: a worker count of zero or below starts no goroutine: the pool has
    returned at once with the input untouched, nothing reported and
    nothing sent, and no move exists. *)
Theorem no_goroutine_for_nonpositive_count p prefixRegex input :
  (NumParsers (conf p) <= 0)%Z ->
  spawn p input = {| lines := input; workers := []; reported := []; sent := [] |}
  /\ returned (spawn p input) = true
  /\ forall sched s,
       run p prefixRegex sched (spawn p input) = Some s ->
       sched = [] /\ s = spawn p input.
Proof.
  intros HN.
  assert (Hspawn : spawn p input
                   = {| lines := input; workers := []; reported := []; sent := [] |}).
  { unfold spawn. by replace (Z.to_nat (NumParsers (conf p))) with 0%nat by lia. }
  rewrite Hspawn. split; [reflexivity|]. split; [reflexivity|].
  intros [|i sched] s; simpl; [intros [= <-]; auto | discriminate].
Qed.

(** X16: when [Init] fails on a parser that had no line parser, the parser
    it leaves has none either and no filter: every pass over a line ends in
    the nil dereference, whatever the line. A pool started on it all the
    same, with a goroutine and a line to read, never returns: the first
    goroutine to receive a line dies on it. *)
Theorem failed_Init_leaves_a_parser_that_panics p options p' err :
  lineParser p = None ->
  Init p options = (p', Some err) ->
  (forall prefixRegex line,
     processLine p' prefixRegex line = Panic (headerCalls prefixRegex line))
  /\ (forall prefixRegex input sched s,
        (0 < NumParsers options)%Z -> input <> [] ->
        run p' prefixRegex sched (spawn p' input) = Some s ->
        returned s = false).
Proof.
  intros Hlp HInit.
  assert (Hp' : p' = set_filterRegex None (set_conf options p)).
  { unfold Init in HInit. destruct (decide _); [|discriminate].
    destruct (Compile _); [discriminate|]. by injection HInit as <-. }
  assert (Hpass : forall prefixRegex line,
            processLine p' prefixRegex line = Panic (headerCalls prefixRegex line)).
  { intros prefixRegex line. subst p'. unfold processLine. simpl.
    by rewrite parseAndSend_Panic. }
  split; [exact Hpass|].
  intros prefixRegex input sched s HN Hne Hrun.
  assert (Hinv : (lines s = input /\ workers s <> []
                  /\ forall w, w ∈ workers s -> w = Receiving)
                 \/ Panicked ∈ workers s).
  { assert (Hstart : (lines (spawn p' input) = input /\ workers (spawn p' input) <> []
                      /\ forall w, w ∈ workers (spawn p' input) -> w = Receiving)
                     \/ Panicked ∈ workers (spawn p' input)).
    { left. split; [reflexivity|]. split.
      - subst p'. simpl. destruct (Z.to_nat (NumParsers options)) eqn:E; [lia | discriminate].
      - intros w Hin. simpl in Hin. by apply elem_of_replicate in Hin as [-> _]. }
    revert Hstart Hrun. generalize (spawn p' input).
    induction sched as [|i sched IH]; simpl; intros s0 Hs0 Hrun.
    - by injection Hrun as <-.
    - destruct (step p' prefixRegex i s0) as [s1|] eqn:Hstep; [|discriminate].
      eapply IH; [|exact Hrun]. clear IH Hrun.
      unfold step in Hstep.
      destruct (workers s0 !! i) as [w|] eqn:Hi; [|discriminate].
      destruct Hs0 as [(Hlines & _ & Hall)|Hpan].
      + rewrite (Hall w) in Hstep, Hi by (by eapply list_elem_of_lookup_2).
        rewrite Hlines in Hstep. destruct input as [|line rest]; [contradiction|].
        rewrite Hpass in Hstep. injection Hstep as <-. right. simpl.
        apply list_elem_of_lookup. exists i. apply list_lookup_insert_eq.
        by eapply lookup_lt_Some.
      + right. apply list_elem_of_lookup in Hpan as [j Hj].
        assert (Hij : i <> j).
        { intros ->. rewrite Hj in Hi. injection Hi as <-. discriminate. }
        assert (Hkeep : forall w', Panicked ∈ <[i := w']> (workers s0)).
        { intros w'. apply list_elem_of_lookup. exists j.
          by rewrite list_lookup_insert_ne. }
        destruct w as [|e| |]; try discriminate.
        * destruct (lines s0) as [|line rest].
          -- injection Hstep as <-. apply Hkeep.
          -- rewrite Hpass in Hstep. injection Hstep as <-. apply Hkeep.
        * injection Hstep as <-. apply Hkeep. }
  destruct (returned s) eqn:Hret; [|reflexivity]. exfalso.
  rewrite returned_all_exited in Hret.
  destruct Hinv as [(_ & Hne' & Hall)|Hpan].
  - destruct (workers s) as [|w ws]; [contradiction|].
    assert (Hw : w ∈ w :: ws) by (by left).
    pose proof (Hall w Hw). pose proof (Hret w Hw). congruence.
  - specialize (Hret _ Hpan). discriminate.
Qed.

(** *** What reaches the resolver *)

Lemma Send_inversion p prefixRegex line tr e :
  processLine p prefixRegex line = Send tr e ->
  exists lp pl,
    lineParser p = Some lp
    /\ ParseLine lp (takeHeaders prefixRegex line).1 = (pl, None)
    /\ pl <> ∅ /\ allEmpty pl = false
    /\ CallGetTimestamp (mergeFields (takeHeaders prefixRegex line).2 pl)
         (TimeFieldName (conf p)) (TimeFieldFormat (conf p)) ∈ tr
    /\ GetTimestamp (mergeFields (takeHeaders prefixRegex line).2 pl)
         (TimeFieldName (conf p)) (TimeFieldFormat (conf p))
       = (Timestamp e, Data e).
Proof.
  intros Hsend.
  assert (Hps : exists tr0, parseAndSend p prefixRegex line tr0 = Send tr e).
  { unfold processLine in Hsend. destruct (filterRegex p) as [re|]; [|eauto].
    destruct (Bool.eqb _ _); [discriminate | eauto]. }
  destruct Hps as [tr0 Hps].
  destruct (lineParser p) as [lp|] eqn:Hlp;
    [|by rewrite parseAndSend_Panic in Hps].
  rewrite (parseAndSend_outcome _ _ _ _ lp Hlp) in Hps. cbv zeta in Hps.
  destruct (ParseLine lp _) as [pl [err|]] eqn:Hparse; simpl in Hps; [discriminate|].
  destruct (decide _) as [|Hsz]; [discriminate|].
  destruct (allEmpty pl) eqn:Hall; [discriminate|].
  injection Hps as <- <-. exists lp, pl.
  split; [reflexivity|]. split; [exact Hparse|]. split.
  { intros ->. by apply Hsz. }
  split; [exact Hall|]. split.
  - rewrite !elem_of_app. right. apply elem_of_cons. by left.
  - simpl. by destruct (GetTimestamp _ _ _).
Qed.

(** X17: the mapping that a pass hands to the timestamp resolver is never
    empty; when the line had no header fields it is the tokenized mapping
    itself and holds a value that is not the empty string. *)
Theorem resolver_never_gets_an_empty_mapping p prefixRegex line tr e :
  processLine p prefixRegex line = Send tr e ->
  exists m,
    CallGetTimestamp m (TimeFieldName (conf p)) (TimeFieldFormat (conf p)) ∈ tr
    /\ GetTimestamp m (TimeFieldName (conf p)) (TimeFieldFormat (conf p))
       = (Timestamp e, Data e)
    /\ m <> ∅
    /\ ((takeHeaders prefixRegex line).2 = ∅ ->
        allEmpty m = false
        /\ exists lp, lineParser p = Some lp
                      /\ ParseLine lp (takeHeaders prefixRegex line).1 = (m, None)).
Proof.
  intros Hsend.
  destruct (Send_inversion _ _ _ _ _ Hsend)
    as (lp & pl & Hlp & Hparse & Hne & Hall & Hin & Hts).
  eexists. split; [exact Hin|]. split; [exact Hts|]. split.
  - intros Hemp. apply Hne. apply map_size_empty_iff.
    assert (Hle : (size pl <= size (mergeFields (takeHeaders prefixRegex line).2 pl))%nat).
    { rewrite <- !size_dom. apply subseteq_size. intros k.
      rewrite !elem_of_dom, mergeFields_lookup.
      destruct ((takeHeaders prefixRegex line).2 !! k); [intros _; eauto | done]. }
    rewrite Hemp, map_size_empty in Hle. lia.
  - intros Hnil. rewrite Hnil.
    assert (Hid : mergeFields ∅ pl = pl).
    { apply map_eq. intros k. by rewrite mergeFields_lookup, lookup_empty. }
    rewrite Hid. eauto.
Qed.

(** X18: the test for empty values does not see the header fields: a line
    whose tokenized mapping holds a value is sent although every key of it
    is overwritten by a header field that is the empty string, and the
    mapping that then reaches the resolver holds empty strings only. *)
Theorem headers_can_blank_a_sent_mapping p prefixRegex line lp pl :
  lineParser p = Some lp ->
  (forall re, filterRegex p = Some re -> MatchString re line <> InvertFilter (conf p)) ->
  ParseLine lp (takeHeaders prefixRegex line).1 = (pl, None) ->
  pl <> ∅ -> allEmpty pl = false ->
  (forall k, is_Some (pl !! k) -> is_Some ((takeHeaders prefixRegex line).2 !! k)) ->
  (forall k v, (takeHeaders prefixRegex line).2 !! k = Some v -> v = EmptyString) ->
  exists tr e,
    processLine p prefixRegex line = Send tr e
    /\ CallGetTimestamp (mergeFields (takeHeaders prefixRegex line).2 pl)
         (TimeFieldName (conf p)) (TimeFieldFormat (conf p)) ∈ tr
    /\ allEmpty (mergeFields (takeHeaders prefixRegex line).2 pl) = true.
Proof.
  intros Hlp Hpass Hparse Hne Hall Hcover Hblank.
  destruct (processLine_past_filter p prefixRegex line Hpass) as (tr0 & -> & _).
  rewrite (parseAndSend_outcome _ _ _ _ lp Hlp). cbv zeta. rewrite Hparse. simpl.
  destruct (decide (size pl = 0%nat)) as [Hsz|_].
  { apply map_size_empty_iff in Hsz. contradiction. }
  rewrite Hall. do 2 eexists. split; [reflexivity|]. split.
  - rewrite !elem_of_app. right. apply elem_of_cons. by left.
  - apply allEmpty_true. intros k v. rewrite mergeFields_lookup.
    destruct (_ !! k) as [h|] eqn:Hh.
    + intros [= <-]. by rewrite (Hblank k h Hh).
    + intros Hk. destruct (Hcover k (mk_is_Some _ _ Hk)) as [h' Hh']. congruence.
Qed.

End further.

(** ** The package on concrete lines *)

#[local] Existing Instances sample.types sample.imports.

(** The cases of the inference order: true, 42, 3.14, 42x and the empty
    text. *)
Example infer_each_tag :
  let parsed :=
    (ParseLine KeyValLineParser "a=true b=42 c=3.14 d=42x e=").1 in
  parsed !! "a" = Some (VBool true)
  /\ parsed !! "b" = Some (VInt 42)
  /\ parsed !! "c" = Some (VFloat (Qmake 314 100))
  /\ parsed !! "d" = Some (VString "42x")
  /\ parsed !! "e" = Some (VString EmptyString)
  /\ size parsed = 5%nat.
Proof. vm_compute. repeat split; reflexivity. Qed.

(** An integer too large for [int] is stored as a float. *)
Example infer_beyond_int :
  (ParseLine KeyValLineParser "n=9223372036854775808").1 !! "n"
  = Some (VFloat (Qmake 9223372036854775808 1)).
Proof. vm_compute. reflexivity. Qed.

(** The line of the end-to-end scenario, without filter or prefix matcher. *)
Example status_line_sent :
  exists tr e,
    processLine (sample.parser EmptyString false 1) None
                "status=200 method=GET duration=1.5 cached=true" = Send tr e
    /\ reports tr = []
    /\ Data e !! "status" = Some (VInt 200)
    /\ Data e !! "method" = Some (VString "GET")
    /\ Data e !! "duration" = Some (VFloat (Qmake 15 10))
    /\ Data e !! "cached" = Some (VBool true)
    /\ size (Data e) = 4%nat.
Proof. do 2 eexists. split; [vm_compute; reflexivity|]. vm_compute. repeat split; reflexivity. Qed.

(** The pattern ERROR, not inverted, on a line that starts with INFO. *)
Example info_line_filtered :
  processLine (sample.parser "ERROR" false 1) None "INFO starting up"
  = Continue [CallMatchString "INFO starting up";
              SkipWithFields "INFO starting up" "due to provided filter_regex" false].
Proof. vm_compute. reflexivity. Qed.

(** A line on which the scanner fails, and a line without any pair. *)
Example tokenize_error_reported :
  processLine (sample.parser EmptyString false 1) None "a=1 b=\"
  = Continue [CallParseLine "a=1 b=\";
              ParseError "a=1 b=\" "logfmt: unterminated string"].
Proof. vm_compute. reflexivity. Qed.

Example empty_line_reported :
  processLine (sample.parser EmptyString false 1) None "   "
  = Continue [CallParseLine "   "; Skip "   " "no key/val pairs found"].
Proof. vm_compute. reflexivity. Qed.

(** Two goroutines and three lines: the event of the second line reaches
    the sink before the event of the first when the second goroutine
    completes its send first (the value 1 of the first line is stored as
    the boolean true). *)
Example pool_order_not_fixed :
  from_option (fun s => (fun e => map_to_list (Data e)) <$> sent s) []
    (run (sample.parser EmptyString false 2) None [0; 1; 1; 0; 1; 1; 1; 0]%nat
         (spawn (sample.parser EmptyString false 2) ["a=1"; "b=2"; "c=x"]))
  = [[("b", VInt 2)]; [("a", VBool true)]; [("c", VString "x")]].
Proof. vm_compute. reflexivity. Qed.

(** A parser whose [Init] failed has no line parser: a line given to it all
    the same ends the pass in the nil dereference. *)
Example failed_Init_panics :
  (Init sample.zero (sample.options "(" false 1)).2
    = Some "error parsing regexp: missing closing )"
  /\ processLine (sample.parser "(" false 1) None "a=1" = Panic [].
Proof. split; vm_compute; reflexivity. Qed.

(** A pattern that ERROR lines match, a prefix matcher that takes ERROR and
    the space after it as header, and a line of two fields without value. *)
Lemma rejection_rules_in_order_witness :
  lineParser (sample.parser "ERROR" false 2) = Some KeyValLineParser
  /\ MatchString "ERROR" "ERROR msg= x=" = true
  /\ exists tr,
       processLine (sample.parser "ERROR" false 2) (Some "ERROR ") "ERROR msg= x="
       = Continue tr
       /\ reports tr = [Skip "msg= x=" "all values are the empty string"].
Proof.
  split; [reflexivity|]. split; [reflexivity|].
  destruct (@rejection_rules_in_order sample.types sample.imports
              (sample.parser "ERROR" false 2) (Some "ERROR ") "ERROR msg= x="
              KeyValLineParser)
    as (_ & _ & Hrule3 & _).
  - reflexivity.
  - intros re Hre. vm_compute in Hre. injection Hre as <-. vm_compute. discriminate.
  - apply Hrule3; vm_compute; [reflexivity | discriminate | reflexivity].
Defined.

Lemma allEmpty_checked_before_merge_witness :
  FindStringSubmatchMap "ERROR " "ERROR msg= x="
    = ("ERROR ", {[ "header" := "ERROR " ]})
  /\ (exists tr,
        processLine (sample.parser "ERROR" false 2) (Some "ERROR ") "ERROR msg= x="
        = Continue tr
        /\ reports tr = [Skip "msg= x=" "all values are the empty string"])
  /\ allEmpty (mergeFields ({[ "header" := "ERROR " ]} : gmap string string)
                 (ParseLine KeyValLineParser "msg= x=").1) = false.
Proof.
  split; [reflexivity|].
  destruct (@allEmpty_checked_before_merge sample.types sample.imports
              (sample.parser "ERROR" false 2) "ERROR " "ERROR msg= x="
              KeyValLineParser "ERROR " {[ "header" := "ERROR " ]}
              (ParseLine KeyValLineParser "msg= x=").1)
    as (Hrej & _ & Hmerged).
  - reflexivity.
  - intros re Hre. vm_compute in Hre. injection Hre as <-. vm_compute. discriminate.
  - reflexivity.
  - reflexivity.
  - vm_compute. discriminate.
  - intros k v Hk.
    destruct (decide (k = "msg")) as [->|Hmsg];
      [vm_compute in Hk; injection Hk as <-; reflexivity|].
    destruct (decide (k = "x")) as [->|Hx];
      [vm_compute in Hk; injection Hk as <-; reflexivity|].
    exfalso. revert Hk.
    change ((ParseLine KeyValLineParser "msg= x=").1)
      with (<["x" := VString EmptyString]>
              (<["msg" := VString EmptyString]> (∅ : gmap string (Value Q)))).
    rewrite !lookup_insert_ne, lookup_empty by congruence. discriminate.
  - split; [exact Hrej|]. apply Hmerged. exists "header", "ERROR ".
    split; [reflexivity | discriminate].
Defined.

Lemma filter_processes_iff_witness :
  lineParser (sample.parser "ERROR" true 2) = Some KeyValLineParser
  /\ MatchString "ERROR" "INFO up=1" = false
  /\ existsb is_extraction
       (trace (processLine (sample.parser "ERROR" true 2) None "INFO up=1")) = true
  /\ existsb is_extraction
       (trace (processLine (sample.parser "ERROR" true 2) None "ERROR up=1")) = false.
Proof.
  split; [reflexivity|]. split; [reflexivity|]. split.
  - destruct (@filter_processes_iff sample.types sample.imports
                (sample.parser "ERROR" true 2) None "INFO up=1" KeyValLineParser eq_refl)
      as [Hset _].
    destruct (Hset "ERROR" eq_refl) as (_ & _ & Hinv & _).
    apply Hinv; reflexivity.
  - reflexivity.
Defined.

Lemma header_fields_overwrite_witness :
  match processLine (sample.parser EmptyString false 2) (Some "ERROR ")
                    "ERROR header=7 a=1" with
  | Send tr e =>
      (ParseLine KeyValLineParser "header=7 a=1").1 !! "header" = Some (VInt 7)
      /\ Data e !! "header" = Some (VString "ERROR ")
  | _ => False
  end.
Proof.
  assert (Hsend : match processLine (sample.parser EmptyString false 2) (Some "ERROR ")
                          "ERROR header=7 a=1" with
                  | Send _ _ => true
                  | _ => false
                  end = true) by (vm_compute; reflexivity).
  destruct (processLine (sample.parser EmptyString false 2) (Some "ERROR ")
              "ERROR header=7 a=1") as [tr|tr e|tr] eqn:Ho; try discriminate Hsend.
  split; [vm_compute; reflexivity|].
  destruct (@header_fields_overwrite sample.types sample.imports
              (sample.parser EmptyString false 2) (Some "ERROR ") "ERROR header=7 a=1"
              tr e Ho)
    as (lp & pl & _ & _ & _ & -> & Hheader & _).
  change (delete EmptyString
            (mergeFields
               (takeHeaders (Some "ERROR ") "ERROR header=7 a=1").2 pl) !! "header"
          = Some (VString "ERROR ")).
  rewrite lookup_delete_ne by discriminate.
  apply Hheader. vm_compute. reflexivity.
Defined.

Lemma Init_fails_on_malformed_pattern_witness :
  FilterRegex (sample.options "(" false 2) <> EmptyString
  /\ Init sample.zero (sample.options "(" false 2)
     = (set_filterRegex None (set_conf (sample.options "(" false 2) sample.zero),
        Some "error parsing regexp: missing closing )")
  /\ startPipeline sample.zero (sample.options "(" false 2) ["a=1"; "b=2"]
     = inl "error parsing regexp: missing closing )".
Proof.
  split; [discriminate|].
  destruct (@Init_fails_on_malformed_pattern sample.types sample.imports sample.zero
              (sample.options "(" false 2) "error parsing regexp: missing closing )"
              ["a=1"; "b=2"])
    as (HInit & _ & _ & Hstart).
  - discriminate.
  - reflexivity.
  - split; [exact HInit | exact Hstart].
Defined.

Lemma pool_sends_every_event_witness :
  match run (sample.parser EmptyString false 2) None [0; 1; 1; 0; 1; 1; 1; 0]%nat
            (spawn (sample.parser EmptyString false 2) ["a=1"; "b=2"; "c=x"]) with
  | Some s =>
      returned s = true
      /\ length (sent s) = 3%nat
      /\ sent s ≡ₚ events (sample.parser EmptyString false 2) None ["a=1"; "b=2"; "c=x"]
  | None => False
  end.
Proof.
  assert (Hret : from_option returned false
                   (run (sample.parser EmptyString false 2) None
                        [0; 1; 1; 0; 1; 1; 1; 0]%nat
                        (spawn (sample.parser EmptyString false 2) ["a=1"; "b=2"; "c=x"]))
                 = true) by (vm_compute; reflexivity).
  destruct (run (sample.parser EmptyString false 2) None [0; 1; 1; 0; 1; 1; 1; 0]%nat
              (spawn (sample.parser EmptyString false 2) ["a=1"; "b=2"; "c=x"]))
    as [s|] eqn:Hrun; [|discriminate Hret].
  simpl in Hret.
  destruct (@pool_sends_every_event sample.types sample.imports
              (sample.parser EmptyString false 2) None ["a=1"; "b=2"; "c=x"]
              [0; 1; 1; 0; 1; 1; 1; 0]%nat s)
    as (_ & _ & _ & Hsent).
  - vm_compute. reflexivity.
  - vm_compute. reflexivity.
  - repeat constructor; vm_compute; eauto.
  - exact Hrun.
  - destruct (Hsent Hret) as [Hperm Hlen]. auto.
Defined.

Lemma zero_parsers_drop_all_input_witness :
  NumParsers (conf (sample.parser EmptyString false 0)) = 0
  /\ returned (spawn (sample.parser EmptyString false 0) ["a=1"; "b=2"]) = true
  /\ forall i, step (sample.parser EmptyString false 0) None i
                 (spawn (sample.parser EmptyString false 0) ["a=1"; "b=2"]) = None.
Proof.
  split; [reflexivity|].
  destruct (@zero_parsers_drop_all_input sample.types sample.imports
              (sample.parser EmptyString false 0) None ["a=1"; "b=2"] eq_refl)
    as (_ & Hret & Hstep & _).
  split; [exact Hret | exact Hstep].
Defined.

(** ** The further properties on concrete lines *)

Lemma Init_keeps_earlier_filter_witness :
  Init sample.zero (sample.options "ERROR" false 1)
    = (sample.parser "ERROR" false 1, None)
  /\ filterRegex (Init (sample.parser "ERROR" false 1)
                       (sample.options EmptyString false 1)).1 = Some "ERROR"
  /\ processLine (Init (sample.parser "ERROR" false 1)
                       (sample.options EmptyString false 1)).1 None "INFO up=1"
     = Continue [CallMatchString "INFO up=1";
                 SkipWithFields "INFO up=1" "due to provided filter_regex" false].
Proof.
  split; [reflexivity|].
  destruct (@Init_keeps_earlier_filter sample.types sample.imports sample.zero
              (sample.options "ERROR" false 1) (sample.options EmptyString false 1)
              (sample.parser "ERROR" false 1) "ERROR")
    as (_ & Hre & Hskip).
  - discriminate.
  - reflexivity.
  - reflexivity.
  - reflexivity.
  - split; [exact Hre|]. apply (Hskip None "INFO up=1"). reflexivity.
Defined.

Lemma invert_flag_flips_the_filter_witness :
  existsb is_extraction
    (trace (processLine (sample.parser "ERROR" false 1) None "ERROR up=1"))
  = negb (existsb is_extraction
            (trace (processLine (sample.parser "ERROR" true 1) None "ERROR up=1"))).
Proof.
  apply (@invert_flag_flips_the_filter sample.types sample.imports
           (sample.parser "ERROR" false 1) (sample.parser "ERROR" true 1)
           None "ERROR up=1" "ERROR" KeyValLineParser KeyValLineParser);
    reflexivity.
Defined.

Lemma allEmpty_any_iteration_order_witness :
  allEmpty_loop [("b", VString EmptyString); ("a", VInt 3)]
  = allEmpty (<["a" := VInt 3]> (<["b" := VString EmptyString]> ∅)
                : gmap string (Value Q))
  /\ allEmpty_loop [("a", VInt 3); ("b", VString EmptyString)]
     = allEmpty (<["a" := VInt 3]> (<["b" := VString EmptyString]> ∅)
                   : gmap string (Value Q)).
Proof.
  split.
  - apply (@allEmpty_any_iteration_order sample.types).
    vm_compute. first [reflexivity | apply perm_swap].
  - apply (@allEmpty_any_iteration_order sample.types).
    vm_compute. first [reflexivity | apply perm_swap].
Defined.

Lemma allEmpty_of_parsed_line_witness :
  ParseFloat EmptyString = None
  /\ logfmt_pairs "a=1 a=" = [("a", "1"); ("a", EmptyString)]
  /\ allEmpty (ParseLine KeyValLineParser "a=1 a=").1 = true.
Proof.
  split; [reflexivity|]. split; [reflexivity|].
  apply (@allEmpty_of_parsed_line sample.types sample.imports "a=1 a=" eq_refl).
  intros l1 key val l2 Heq Hl2.
  change (logfmt_pairs "a=1 a=") with [("a", "1"); ("a", EmptyString)] in Heq.
  destruct l1 as [|x1 [|x2 [|x3 l1]]]; simpl in Heq.
  - injection Heq as <- <- <-. exfalso. apply Hl2. by left.
  - by injection Heq as _ _ <- _.
  - discriminate Heq.
  - discriminate Heq.
Defined.

Lemma only_one_and_zero_are_both_witness :
  strconv.ParseBool "1" = Some true /\ strconv.Atoi "1" = Some 1
  /\ (("1" = "1" /\ true = true /\ 1 = 1) \/ ("1" = "0" /\ true = false /\ 1 = 0)).
Proof.
  split; [reflexivity|]. split; [reflexivity|].
  apply (only_one_and_zero_are_both "1" true 1); reflexivity.
Defined.

Lemma pool_accounts_for_every_line_witness :
  match run (sample.parser EmptyString false 2) None [0; 1; 1; 0; 1; 0; 1]%nat
            (spawn (sample.parser EmptyString false 2) ["a=1"; "b="; "c=x"]) with
  | Some s =>
      returned s = true
      /\ accounted s = 3%nat
      /\ lines s = []
      /\ (length (sent s) + length (reports (reported s)))%nat = 3%nat
      /\ length (reports (reported s)) = 1%nat
  | None => False
  end.
Proof.
  assert (Hobs : from_option (fun s => (returned s, length (reports (reported s))))
                   (false, 0%nat)
                   (run (sample.parser EmptyString false 2) None
                        [0; 1; 1; 0; 1; 0; 1]%nat
                        (spawn (sample.parser EmptyString false 2) ["a=1"; "b="; "c=x"]))
                 = (true, 1%nat)) by (vm_compute; reflexivity).
  destruct (run (sample.parser EmptyString false 2) None [0; 1; 1; 0; 1; 0; 1]%nat
              (spawn (sample.parser EmptyString false 2) ["a=1"; "b="; "c=x"]))
    as [s|] eqn:Hrun; [|discriminate Hobs].
  simpl in Hobs. injection Hobs as Hret Hrep.
  destruct (@pool_accounts_for_every_line sample.types sample.imports
              (sample.parser EmptyString false 2) None KeyValLineParser
              ["a=1"; "b="; "c=x"] [0; 1; 1; 0; 1; 0; 1]%nat s eq_refl Hrun)
    as (Hacc & _ & _ & Hdone).
  destruct Hdone as (Hlines & _ & Hsum); [reflexivity | exact Hret |].
  auto.
Defined.

Lemma pool_never_invents_or_repeats_witness :
  match run (sample.parser EmptyString false 2) None [0; 1; 1]%nat
            (spawn (sample.parser EmptyString false 2) ["a=1"; "b=2"; "c=x"]) with
  | Some s =>
      sent s ⊆+ events (sample.parser EmptyString false 2) None ["a=1"; "b=2"; "c=x"]
      /\ length (sent s) = 1%nat
      /\ lines s = ["c=x"]
  | None => False
  end.
Proof.
  assert (Hobs : from_option (fun s => (length (sent s), lines s)) (0%nat, [])
                   (run (sample.parser EmptyString false 2) None [0; 1; 1]%nat
                        (spawn (sample.parser EmptyString false 2) ["a=1"; "b=2"; "c=x"]))
                 = (1%nat, ["c=x"])) by (vm_compute; reflexivity).
  destruct (run (sample.parser EmptyString false 2) None [0; 1; 1]%nat
              (spawn (sample.parser EmptyString false 2) ["a=1"; "b=2"; "c=x"]))
    as [s|] eqn:Hrun; [|discriminate Hobs].
  simpl in Hobs. injection Hobs as Hlen Hlines.
  destruct (@pool_never_invents_or_repeats sample.types sample.imports
              (sample.parser EmptyString false 2) None
              ["a=1"; "b=2"; "c=x"] [0; 1; 1]%nat s Hrun)
    as (Hsub & _ & _).
  auto.
Defined.

Lemma single_parser_keeps_order_witness :
  match run (sample.parser EmptyString false 1) None [0; 0; 0; 0; 0]%nat
            (spawn (sample.parser EmptyString false 1) ["a=5"; "b=2"]) with
  | Some s =>
      returned s = true
      /\ sent s = events (sample.parser EmptyString false 1) None ["a=5"; "b=2"]
  | None => False
  end.
Proof.
  assert (Hobs : from_option returned false
                   (run (sample.parser EmptyString false 1) None [0; 0; 0; 0; 0]%nat
                        (spawn (sample.parser EmptyString false 1) ["a=5"; "b=2"]))
                 = true) by (vm_compute; reflexivity).
  destruct (run (sample.parser EmptyString false 1) None [0; 0; 0; 0; 0]%nat
              (spawn (sample.parser EmptyString false 1) ["a=5"; "b=2"]))
    as [s|] eqn:Hrun; [|discriminate Hobs].
  simpl in Hobs.
  destruct (@single_parser_keeps_order sample.types sample.imports
              (sample.parser EmptyString false 1) None
              ["a=5"; "b=2"] [0; 0; 0; 0; 0]%nat s eq_refl Hrun)
    as (_ & Hdone).
  destruct (Hdone Hobs) as [Hsent _]. auto.
Defined.

Lemma no_goroutine_for_nonpositive_count_witness :
  (NumParsers (conf (sample.parser EmptyString false (-3))) <= 0)%Z
  /\ returned (spawn (sample.parser EmptyString false (-3)) ["a=1"; "b=2"]) = true
  /\ workers (spawn (sample.parser EmptyString false (-3)) ["a=1"; "b=2"]) = [].
Proof.
  assert (HN : (NumParsers (conf (sample.parser EmptyString false (-3))) <= 0)%Z)
    by (vm_compute; discriminate).
  split; [exact HN|].
  destruct (@no_goroutine_for_nonpositive_count sample.types sample.imports
              (sample.parser EmptyString false (-3)) None ["a=1"; "b=2"] HN)
    as (Hspawn & Hret & _).
  split; [exact Hret|]. by rewrite Hspawn.
Defined.

Lemma failed_Init_leaves_a_parser_that_panics_witness :
  Init sample.zero (sample.options "(" false 1)
    = (sample.parser "(" false 1, Some "error parsing regexp: missing closing )")
  /\ processLine (sample.parser "(" false 1) None "a=1" = Panic []
  /\ from_option returned false
       (run (sample.parser "(" false 1) None [0]%nat
            (spawn (sample.parser "(" false 1) ["a=1"])) = false.
Proof.
  split; [reflexivity|].
  destruct (@failed_Init_leaves_a_parser_that_panics sample.types sample.imports
              sample.zero (sample.options "(" false 1) (sample.parser "(" false 1)
              "error parsing regexp: missing closing )" eq_refl eq_refl)
    as (Hpanic & Hnever).
  split; [exact (Hpanic None "a=1")|].
  destruct (run (sample.parser "(" false 1) None [0]%nat
              (spawn (sample.parser "(" false 1) ["a=1"])) as [s|] eqn:Hrun;
    [|reflexivity].
  simpl. apply (Hnever None ["a=1"] [0]%nat s); [reflexivity | discriminate | exact Hrun].
Defined.

Lemma resolver_never_gets_an_empty_mapping_witness :
  match processLine (sample.parser EmptyString false 1) None "a=5 b=" with
  | Send tr e =>
      exists m,
        CallGetTimestamp m EmptyString EmptyString ∈ tr
        /\ m <> ∅ /\ allEmpty m = false
  | _ => False
  end.
Proof.
  assert (Hsend : match processLine (sample.parser EmptyString false 1) None "a=5 b=" with
                  | Send _ _ => true
                  | _ => false
                  end = true) by (vm_compute; reflexivity).
  destruct (processLine (sample.parser EmptyString false 1) None "a=5 b=")
    as [tr|tr e|tr] eqn:Ho; try discriminate Hsend.
  destruct (@resolver_never_gets_an_empty_mapping sample.types sample.imports
              (sample.parser EmptyString false 1) None "a=5 b=" tr e Ho)
    as (m & Hin & _ & Hne & Hplain).
  exists m. split; [exact Hin|]. split; [exact Hne|].
  by destruct (Hplain eq_refl) as [Hall _].
Defined.

Lemma headers_can_blank_a_sent_mapping_witness :
  takeHeaders (Some EmptyString) "header=5"
    = ("header=5", {[ "header" := EmptyString ]})
  /\ allEmpty (ParseLine KeyValLineParser "header=5").1 = false
  /\ exists tr e,
       processLine (sample.parser EmptyString false 1) (Some EmptyString) "header=5"
       = Send tr e
       /\ allEmpty (mergeFields ({[ "header" := EmptyString ]} : gmap string string)
                      (ParseLine KeyValLineParser "header=5").1) = true.
Proof.
  split; [reflexivity|]. split; [vm_compute; reflexivity|].
  destruct (@headers_can_blank_a_sent_mapping sample.types sample.imports
              (sample.parser EmptyString false 1) (Some EmptyString) "header=5"
              KeyValLineParser (ParseLine KeyValLineParser "header=5").1)
    as (tr & e & Hsend & _ & Hblank).
  - reflexivity.
  - intros re Hre. vm_compute in Hre. discriminate Hre.
  - vm_compute. reflexivity.
  - vm_compute. discriminate.
  - vm_compute. reflexivity.
  - intros k [v Hk].
    destruct (decide (k = "header")) as [->|Hne]; [vm_compute; eauto|].
    exfalso. revert Hk.
    change ((ParseLine KeyValLineParser "header=5").1)
      with (<["header" := VInt 5]> (∅ : gmap string (Value Q))).
    rewrite lookup_insert_ne, lookup_empty by congruence. discriminate.
  - intros k v.
    change ((@takeHeaders sample.types sample.imports (Some EmptyString) "header=5").2)
      with ({[ "header" := EmptyString ]} : gmap string string).
    intros Hk. apply lookup_singleton_Some in Hk as [_ <-]. reflexivity.
  - exists tr, e. split; [exact Hsend | exact Hblank].
Defined.
